(** * muforge: the game router's session state machine

    A shallow embedding of [muforge/game/routers/api_game.py]: the item
    stacking helper, the process-wide session map and the endpoints that
    mutate a session (deposit, heal, shop, search, adventure, attack, loot
    claim), followed by the properties of these operations.

    Conventions of the embedding:
    - Python [int] is [Z]; a [dict] with a fixed set of keys is a record,
      a key that may be missing is an [option] field;
    - the module-level [sessions] dict is a [gmap string Session] passed
      in and returned by every endpoint;
    - [raise HTTPException] is the [HTTPException] result, a returned dict
      is [Return], and an exception of the interpreter that no handler
      catches is a result of its own ([OverflowError]);
    - Python [float] is binary64, with the operations of [SpecFloat];
    - the [random] module is an explicit generator state threaded through
      the endpoints that draw from it. *)

From Stdlib Require Import Floats.SpecFloat.
From stdpp Require Import gmap strings list fin_maps pretty.

Open Scope Z_scope.

(** ** Items

    Inventory stacks and loot entries are dicts with a ["name"] and a
    quantity stored under ["qty"], under ["count"], or under both. *)

Record item := Item {
  item_name : string;
  item_qty : option Z;
  item_count : option Z;
}.

(** [item.get("qty", item.get("count", d))] *)
Definition get_qty (d : Z) (i : item) : Z :=
  match item_qty i with
  | Some q => q
  | None => match item_count i with Some c => c | None => d end
  end.

(** [item.get("qty", item.get("count", 0)) or 0]: [or] maps the falsy [0]
    to [0], so it is the identity on integers. *)
Definition stack_qty (i : item) : Z :=
  let q := get_qty 0 i in if q =? 0 then 0 else q.

(** [item["qty"] = q; item["count"] = q] *)
Definition set_qty_count (i : item) (q : Z) : item :=
  {| item_name := item_name i; item_qty := Some q; item_count := Some q |}.

(** [{"name": name, "qty": q, "count": q}] *)
Definition stacked (name : string) (q : Z) : item :=
  {| item_name := name; item_qty := Some q; item_count := Some q |}.

(** [{"name": name, "qty": q}] *)
Definition with_qty (name : string) (q : Z) : item :=
  {| item_name := name; item_qty := Some q; item_count := None |}.

(** [{"name": name, "count": c}] *)
Definition with_count (name : string) (c : Z) : item :=
  {| item_name := name; item_qty := None; item_count := Some c |}.

Definition sum_Z (l : list Z) : Z := foldr Z.add 0 l.

(** ** Scrap stacking helper *)

Definition SCRAP_STACK_SIZE : Z := 64.

(** The [for item in inventory] loop of [add_stacked_item]. The result is
    the inventory after the loop and [None] when the loop left the function
    through [return], [Some qty] with the quantity still to place when it
    ran to the end of the list. *)
Fixpoint fill_partial_stacks (inventory : list item) (name : string) (qty : Z)
  : list item * option Z :=
  match inventory with
  | [] => ([], Some qty)
  | i :: rest =>
    if negb (String.eqb (item_name i) name) then
      let '(rest', r) := fill_partial_stacks rest name qty in (i :: rest', r)
    else
      let existing_qty := stack_qty i in
      if SCRAP_STACK_SIZE <=? existing_qty then
        let '(rest', r) := fill_partial_stacks rest name qty in (i :: rest', r)
      else
        let space := SCRAP_STACK_SIZE - existing_qty in
        let add_now := Z.min space qty in
        let new_qty := existing_qty + add_now in
        let i' := set_qty_count i new_qty in
        let qty' := qty - add_now in
        if qty' <=? 0 then (i' :: rest, None)
        else
          let '(rest', r) := fill_partial_stacks rest name qty' in (i' :: rest', r)
  end.

(** The [while qty > 0] loop: the stacks it appends, in order. Every
    iteration removes at least one unit, so [Z.to_nat qty] iterations are
    always enough (see [open_new_stacks_unfold]). *)
Fixpoint open_new_stacks_iter (fuel : nat) (name : string) (qty : Z) : list item :=
  match fuel with
  | O => []
  | S fuel' =>
    if 0 <? qty then
      let add_now := Z.min SCRAP_STACK_SIZE qty in
      stacked name add_now :: open_new_stacks_iter fuel' name (qty - add_now)
    else []
  end.

Definition open_new_stacks (name : string) (qty : Z) : list item :=
  open_new_stacks_iter (Z.to_nat qty) name qty.

Definition add_stacked_item (inventory : list item) (name : string) (qty : Z)
  : list item :=
  match fill_partial_stacks inventory name qty with
  | (inventory', None) => inventory'
  | (inventory', Some qty') => inventory' ++ open_new_stacks name qty'
  end.

(** A run of calls with the same item name. *)
Definition add_stacked_items (inventory : list item) (name : string)
    (qtys : list Z) : list item :=
  foldl (fun inv q => add_stacked_item inv name q) inventory qtys.

(** Total quantity held under [name], read the way the code reads it. *)
Definition total_qty (name : string) (inventory : list item) : Z :=
  sum_Z (stack_qty <$> filter (fun i => item_name i = name) inventory).

Definition within_stack_size (name : string) (inventory : list item) : Prop :=
  Forall (fun i => item_name i = name -> stack_qty i <= SCRAP_STACK_SIZE) inventory.

Definition other_stacks (name : string) (inventory : list item) : list item :=
  filter (fun i => item_name i <> name) inventory.

(** ** Session state *)

(** The [player] dict created by [start_game]; ["unlocked_locations"] is a
    key that only exists once a location was unlocked. *)
Record Player := mkPlayer {
  p_name : string;
  p_health : Z;
  p_max_health : Z;
  p_xp : Z;
  p_xp_to_next : Z;
  p_level : Z;
  p_credits : Z;
  p_inventory : list item;
  p_plasma_durability : Z;
  p_unlocked_locations : option (list string);
}.

Definition set_health (p : Player) (h : Z) : Player :=
  mkPlayer (p_name p) h (p_max_health p) (p_xp p) (p_xp_to_next p) (p_level p)
    (p_credits p) (p_inventory p) (p_plasma_durability p) (p_unlocked_locations p).

Definition set_credits (p : Player) (c : Z) : Player :=
  mkPlayer (p_name p) (p_health p) (p_max_health p) (p_xp p) (p_xp_to_next p)
    (p_level p) c (p_inventory p) (p_plasma_durability p) (p_unlocked_locations p).

Definition set_inventory (p : Player) (inv : list item) : Player :=
  mkPlayer (p_name p) (p_health p) (p_max_health p) (p_xp p) (p_xp_to_next p)
    (p_level p) (p_credits p) inv (p_plasma_durability p) (p_unlocked_locations p).

Definition set_plasma_durability (p : Player) (d : Z) : Player :=
  mkPlayer (p_name p) (p_health p) (p_max_health p) (p_xp p) (p_xp_to_next p)
    (p_level p) (p_credits p) (p_inventory p) d (p_unlocked_locations p).

Record Node := mkNode {
  node_id : string;
  node_name : string;
  node_desc : string;
}.

Record Enemy := mkEnemy {
  e_id : Z;
  e_name : string;
  e_health : Z;
  e_max_health : Z;
  e_attack : Z;
  e_level : Z;
  e_credit_reward : Z;
}.

Definition set_enemy_health (e : Enemy) (h : Z) : Enemy :=
  mkEnemy (e_id e) (e_name e) h (e_max_health e) (e_attack e) (e_level e)
    (e_credit_reward e).

(** [{"enemies": enemies}] *)
Record Combat := mkCombat {
  c_enemies : list Enemy;
}.

(** One value of the [sessions] dict. ["messages"] is created on first
    use, so it may be missing. *)
Record Session := mkSession {
  s_player : Player;
  s_node : Node;
  s_combat : option Combat;
  s_unclaimed_loot : list item;
  s_messages : option (list string);
}.

Definition set_player (s : Session) (p : Player) : Session :=
  mkSession p (s_node s) (s_combat s) (s_unclaimed_loot s) (s_messages s).

Definition set_combat (s : Session) (c : option Combat) : Session :=
  mkSession (s_player s) (s_node s) c (s_unclaimed_loot s) (s_messages s).

Definition set_unclaimed_loot (s : Session) (l : list item) : Session :=
  mkSession (s_player s) (s_node s) (s_combat s) l (s_messages s).

(** [if "messages" not in session: session["messages"] = []] followed by
    [session["messages"].append(m)] *)
Definition append_message (s : Session) (m : string) : Session :=
  mkSession (s_player s) (s_node s) (s_combat s) (s_unclaimed_loot s)
    (Some (default [] (s_messages s) ++ [m])).

(** ** Results and the random source *)

Inductive http_result (A : Type) : Type :=
  | Return (a : A)
  | HTTPException (status_code : Z) (detail : string)
  | OverflowError.
Arguments Return {A} a.
Arguments HTTPException {A} status_code detail.
Arguments OverflowError {A}.

Definition session_not_found {A : Type} : http_result A :=
  HTTPException 404 "Session not found".

(** State of the [random] module: an arbitrary infinite tape of draws and
    the position of the next one. *)
Record rng := mkRng {
  tape : nat -> nat;
  cursor : nat;
}.

Definition draw (g : rng) : nat * rng :=
  (tape g (cursor g), mkRng (tape g) (S (cursor g))).

(** [random.randint(a, b)], used with [a <= b] only. *)
Definition randint (a b : Z) (g : rng) : Z * rng :=
  let '(r, g') := draw g in (a + Z.of_nat r `mod` (b - a + 1), g').

(** [random.choice(x :: xs)] *)
Definition choice {A : Type} (x : A) (xs : list A) (g : rng) : A * rng :=
  let '(r, g') := draw g in (nth (r mod S (length xs))%nat (x :: xs) x, g').

(** Dicts of the shape [{"ok": .., "msg": .., "error": .., "player": ..}];
    ["error"] and ["player"] are missing from some of them. *)
Record reply := mkReply {
  r_ok : bool;
  r_msg : string;
  r_error : option (option string);
  r_player : option Player;
}.

(** ** /start *)

Definition new_player : Player :=
  mkPlayer "Traveler" 100 100 0 50 1 0 [] 0 None.

Definition terra : Node :=
  mkNode "terra" "Terra" "The home planet. Your journey begins here.".

Definition new_session : Session := mkSession new_player terra None [] None.

(** [session_id] stands for the fresh [str(uuid.uuid4())]. *)
Definition start_game (sessions : gmap string Session) (session_id : string)
  : gmap string Session * string :=
  (<[session_id := new_session]> sessions, session_id).

(** ** /command *)

Record CommandRequest := mkCommandRequest {
  cr_session_id : string;
  cr_command : string;
  cr_args : option (list string);
}.

(** What the command interpreter hands back: a dict whose keys are read
    with [.get] and a default. *)
Record command_result := mkCommandResult {
  cres_ok : option bool;
  cres_msg : option string;
  cres_player : option Player;
}.

(** The [deposit_scrap] branch of [run_command]. *)
Definition deposit_scrap (session : Session) (args : option (list string))
  : Session * reply :=
  let player := s_player session in
  let scrap_type := head (default [] args) in
  match scrap_type with
  | None => (session, mkReply false "Invalid scrap type." None None)
  | Some scrap_type =>
    if negb (bool_decide (scrap_type ∈ ["Scrap"; "Iron Scrap"])) then
      (session, mkReply false "Invalid scrap type." None None)
    else
      let rate := if String.eqb scrap_type "Scrap" then 2 else 5 in
      let total :=
        sum_Z (stack_qty <$>
               filter (fun i => item_name i = scrap_type) (p_inventory player)) in
      let player := set_inventory player
        (filter (fun i => item_name i <> scrap_type) (p_inventory player)) in
      let player := set_credits player (p_credits player + total * rate) in
      let session := set_player session player in
      (session,
       mkReply true
         ("Deposited " +:+ pretty total +:+ " " +:+ scrap_type +:+ " for "
            +:+ pretty (total * rate) +:+ " credits.")
         None (Some player))
  end.

Section command.
(** [execute_command_simple] comes from [muforge.remaining.web_api] when
    that module can be imported; it receives the session (and with it the
    player) by reference and may mutate it. [execute_command_real] is
    [None], so this is the interpreter every other command reaches. *)
Variable execute_command_simple :
  string -> list string -> Session -> Session * command_result.

Definition run_command (sessions : gmap string Session) (req : CommandRequest)
  : gmap string Session * http_result reply :=
  match sessions !! cr_session_id req with
  | None => (sessions, session_not_found)
  | Some session =>
    if String.eqb (cr_command req) "deposit_scrap" then
      let '(session', r) := deposit_scrap session (cr_args req) in
      (<[cr_session_id req := session']> sessions, Return r)
    else
      let '(session', result) :=
        execute_command_simple (cr_command req) (default [] (cr_args req))
          session in
      let ok := default false (cres_ok result) in
      let msg := default "" (cres_msg result) in
      (<[cr_session_id req := session']> sessions,
       Return (mkReply ok msg
                 (Some (if negb ok then Some msg else None))
                 (Some (default (s_player session') (cres_player result)))))
  end.
End command.

(** The interpreter defined when the import fails. *)
Definition execute_command_unavailable (command : string) (args : list string)
    (session : Session) : Session * command_result :=
  (session, mkCommandResult (Some false) (Some "Command execution not available") None).

(** ** /heal *)

Record heal_reply := mkHealReply {
  h_message : string;
  h_player : Player;
}.

Definition heal_player (sessions : gmap string Session) (session_id : string)
  : gmap string Session * http_result heal_reply :=
  match sessions !! session_id with
  | None => (sessions, session_not_found)
  | Some session =>
    let player := s_player session in
    let amount := 15 in
    let player := set_health player (Z.min (p_max_health player) (p_health player + amount)) in
    (<[session_id := set_player session player]> sessions,
     Return (mkHealReply ("Healed for " +:+ pretty amount) player))
  end.

(** ** /shop/buy *)

Definition PRICES : gmap string Z :=
  list_to_map
    [("Medpack", 25); ("Nano Repair Kit", 50); ("Energy Cell", 10);
     ("Charge Cell", 5); ("Armor", 80); ("Energy Shield", 100);
     ("Weapon", 60); ("Blaster", 90); ("Plasma Blaster", 90)].

Record ShopBuyRequest := mkShopBuyRequest {
  sb_session_id : string;
  sb_item_name : string;
}.

Definition shop_buy (sessions : gmap string Session) (req : ShopBuyRequest)
  : gmap string Session * http_result reply :=
  match sessions !! sb_session_id req with
  | None => (sessions, session_not_found)
  | Some session =>
    let player := s_player session in
    let name := sb_item_name req in
    match PRICES !! name with
    | None =>
      (sessions, Return (mkReply false (name +:+ " cannot be bought here.") None None))
    | Some cost =>
      let credits := p_credits player in
      if credits <? cost then
        (sessions, Return (mkReply false "Not enough credits." None None))
      else
        let credits := credits - cost in
        let player := set_credits player credits in
        let inv := p_inventory player ++ [with_qty name 1] in
        let player :=
          if String.eqb name "Plasma Blaster" then set_plasma_durability player 2
          else player in
        let player := set_inventory player inv in
        (<[sb_session_id req := set_player session player]> sessions,
         Return (mkReply true
                   ("Purchased " +:+ name +:+ " for " +:+ pretty cost +:+ " credits!")
                   None (Some player)))
    end
  end.

(** ** /search *)

Definition MAX_INVENTORY_SLOTS : Z := 6.

Record SearchRequest := mkSearchRequest {
  sr_session_id : string;
}.

Record search_reply := mkSearchReply {
  sr_ok : bool;
  sr_msg : string;
  sr_player : Player;
  sr_items : list item;
  sr_credits_gained : Z;
}.

Definition loot_table_head : string * Z := ("Scrap", 1).

Definition loot_table_tail : list (string * Z) :=
  [("Iron Scrap", 1); ("Energy Cell", 1); ("Nano Repair Kit", 1); ("Medpack", 1)].

(** [for _ in range(rolls)]: stops at the first roll that finds the
    inventory at capacity. *)
Fixpoint search_rolls (rolls : nat) (inventory found_items : list item) (g : rng)
  : list item * list item * rng :=
  match rolls with
  | O => (inventory, found_items, g)
  | S rolls' =>
    if MAX_INVENTORY_SLOTS <=? Z.of_nat (length inventory) then
      (inventory, found_items, g)
    else
      let '((name, qty), g) := choice loot_table_head loot_table_tail g in
      search_rolls rolls' (add_stacked_item inventory name qty)
        (found_items ++ [with_qty name qty]) g
  end.

Definition search (sessions : gmap string Session) (g : rng) (req : SearchRequest)
  : gmap string Session * rng * http_result search_reply :=
  match sessions !! sr_session_id req with
  | None => (sessions, g, session_not_found)
  | Some session =>
    let player := s_player session in
    let inventory := p_inventory player in
    if MAX_INVENTORY_SLOTS <=? Z.of_nat (length inventory) then
      (sessions, g,
       Return (mkSearchReply false
                 "Your inventory is full. You leave any scraps you find behind."
                 player [] 0))
    else
      let '(rolls, g) := randint 1 2 g in
      let '(inventory, found_items, g) :=
        search_rolls (Z.to_nat rolls) inventory [] g in
      let '(credits_gain, g) := randint 5 25 g in
      let credits := p_credits player + credits_gain in
      let player := set_credits player credits in
      let player := set_inventory player inventory in
      (<[sr_session_id req := set_player session player]> sessions, g,
       Return (mkSearchReply true
                 "You scour the area and find some useful scraps."
                 player found_items credits_gain))
  end.

(** ** /adventure *)

Definition holds (name : string) (inventory : list item) : bool :=
  existsb (fun i => String.eqb (item_name i) name) inventory.

Definition plasma_warning : string :=
  "⚠️ Your Plasma Blaster will break after this adventure unless repaired with a Nano Repair Kit.".

Definition plasma_breaks : string := "💥 Your Plasma Blaster breaks!".

(** The "Plasma Blaster durability system" block of [start_adventure]: two
    consecutive [if]s under the test for the weapon. *)
Definition plasma_blaster_durability (session : Session) : Session :=
  if holds "Plasma Blaster" (p_inventory (s_player session)) then
    let session :=
      if p_plasma_durability (s_player session) =? 1
      then append_message session plasma_warning
      else session in
    if 0 <? p_plasma_durability (s_player session) then
      let player := s_player session in
      let player := set_plasma_durability player (p_plasma_durability player - 1) in
      let session := set_player session player in
      if p_plasma_durability player =? 0 then
        let player := set_inventory player
          (filter (fun i => item_name i <> "Plasma Blaster") (p_inventory player)) in
        append_message (set_player session player) plasma_breaks
      else session
    else session
  else session.

(** [for i in range(enemy_count)], [i] counting up from [first]. *)
Fixpoint spawn_raiders (count : nat) (first : Z) (player : Player) (g : rng)
  : list Enemy * rng :=
  match count with
  | O => ([], g)
  | S count' =>
    let '(level, g) := randint (p_level player) (p_level player + 1) g in
    let max_hp := 40 + level * 10 in
    let raider :=
      mkEnemy first ("Raider L" +:+ pretty level) max_hp max_hp (8 + level * 2)
        level (10 + level * 5) in
    let '(rest, g) := spawn_raiders count' (first + 1) player g in
    (raider :: rest, g)
  end.

Record adventure_reply := mkAdventureReply {
  adv_enemies : list Enemy;
  adv_description : string;
  adv_loot : list item;
}.

Definition start_adventure (sessions : gmap string Session) (g : rng)
    (session_id : string)
  : gmap string Session * rng * http_result adventure_reply :=
  match sessions !! session_id with
  | None => (sessions, g, session_not_found)
  | Some session =>
    let session := plasma_blaster_durability session in
    let player := s_player session in
    let '(enemy_count, g) := randint 1 2 g in
    let '(enemies, g) := spawn_raiders (Z.to_nat enemy_count) 0 player g in
    let combat := mkCombat enemies in
    let session := set_combat session (Some combat) in
    let '(credits_count, g) := randint 20 60 g in
    let '(scrap_count, g) := randint 1 4 g in
    let '(iron_count, g) := randint 0 2 g in
    let loot :=
      [with_count "Credits" credits_count; with_count "Scrap" scrap_count;
       with_count "Iron Scrap" iron_count] in
    let session := set_unclaimed_loot session loot in
    (<[session_id := session]> sessions, g,
     Return (mkAdventureReply enemies
               "You encounter hostile raiders in the outskirts." loot))
  end.

(** ** /attack *)

Record attack_reply := mkAttackReply {
  a_events : list string;
  a_combat_won : bool;
  a_player_dead : option bool;
  a_enemies : list Enemy;
  a_loot : option (list item);
  a_player : Player;
}.

(** [player_attack * 0.40] converts the integer to a float: to the nearest
    binary64 value, ties to even, and with an [OverflowError] ([None]) when
    that value lies beyond the largest double. *)
Definition binary64_of_int (n : Z) : option spec_float :=
  match binary_normalize 53 1024 n 0 false with
  | S754_infinity _ => None
  | f => Some f
  end.

(** The literal [0.40]: the double nearest to two fifths. *)
Definition binary64_0_40 : spec_float :=
  S754_finite false 7205759403792794 (-54).

(** [int(x)] drops the fraction of a finite float. *)
Definition int_of_binary64 (f : spec_float) : option Z :=
  match f with
  | S754_zero _ => Some 0
  | S754_finite s m e =>
    Some (cond_Zopp s (if 0 <=? e then Z.pos m * 2 ^ e else Z.pos m / 2 ^ (- e)))
  | _ => None
  end.

(** [max(4, int(player_attack * 0.40))], the product being formed in
    binary64; [None] is the [OverflowError] of the conversion. *)
Definition enemy_damage (player_attack : Z) : option Z :=
  f ← binary64_of_int player_attack;
  n ← int_of_binary64 (SFmul 53 1024 f binary64_0_40);
  Some (Z.max 4 n).

(** The route on one session. [attack] arrives as a query parameter read
    from its decimal text, and the interpreter's limit on the length of a
    decimal integer is the same for reading and for writing, so the strike
    event can always be written. The dicts of the session are changed in
    place: when the counter-damage overflows, the strike, the removal of
    the enemy, the reward and the draw of the striker have already
    happened. *)
Definition attack_session (session : Session) (g : rng) (enemy_id attack : Z)
  : Session * rng * http_result attack_reply :=
  let player := s_player session in
  match s_combat session with
  | None => (session, g, HTTPException 400 "No active combat")
  | Some combat =>
    let enemies := c_enemies combat in
    match list_find (fun e => e_id e = enemy_id) enemies with
    | None => (session, g, HTTPException 400 "Invalid enemy id")
    | Some (target_index, enemy) =>
      let attack_power := attack in
      let dmg := attack_power in
      let enemy := set_enemy_health enemy (Z.max 0 (e_health enemy - dmg)) in
      let enemies := <[target_index := enemy]> enemies in
      let events :=
        ["You strike " +:+ e_name enemy +:+ " for " +:+ pretty dmg +:+ " damage."] in
      let '(player, events, enemies) :=
        if e_health enemy <=? 0 then
          let events := events ++ [e_name enemy +:+ " is defeated!"] in
          let credit_reward := e_credit_reward enemy in
          let '(player, events) :=
            if 0 <? credit_reward then
              (set_credits player (p_credits player + credit_reward),
               events ++ ["You loot " +:+ pretty credit_reward +:+ " credits from "
                            +:+ e_name enemy +:+ "."])
            else (player, events) in
          (player, events, delete target_index enemies)
        else (player, events, enemies) in
      match enemies with
      | first :: others =>
        let '(enemy, g) := choice first others g in
        let player_attack := attack in
        match enemy_damage player_attack with
        | None =>
          (set_player (set_combat session (Some (mkCombat enemies))) player, g,
           OverflowError)
        | Some edmg =>
          let player := set_health player (Z.max 0 (p_health player - edmg)) in
          let events :=
            events ++ [e_name enemy +:+ " hits you for " +:+ pretty edmg +:+ " damage."] in
          let session :=
            set_player (set_combat session (Some (mkCombat enemies))) player in
          if p_health player <=? 0 then
            (session, g,
             Return (mkAttackReply (events ++ ["You were defeated!"]) false (Some true)
                       enemies None player))
          else
            (session, g,
             Return (mkAttackReply events false None enemies (Some []) player))
        end
      | [] =>
        let session := set_combat (set_player session player) None in
        (session, g,
         Return (mkAttackReply events true None enemies
                   (Some (s_unclaimed_loot session)) player))
      end
    end
  end.

Definition attack_enemy (sessions : gmap string Session) (g : rng)
    (session_id : string) (enemy_id attack : Z)
  : gmap string Session * rng * http_result attack_reply :=
  match sessions !! session_id with
  | None => (sessions, g, session_not_found)
  | Some session =>
    let '(session', g', r) := attack_session session g enemy_id attack in
    (<[session_id := session']> sessions, g', r)
  end.

(** A run of [/attack] calls against one session: the final store and
    generator, and the replies in call order. *)
Fixpoint attack_sequence (sessions : gmap string Session) (g : rng)
    (session_id : string) (calls : list (Z * Z))
  : gmap string Session * rng * list (http_result attack_reply) :=
  match calls with
  | [] => (sessions, g, [])
  | (enemy_id, attack) :: calls' =>
    let '(sessions, g, r) := attack_enemy sessions g session_id enemy_id attack in
    let '(sessions, g, rs) := attack_sequence sessions g session_id calls' in
    (sessions, g, r :: rs)
  end.

(** ** /loot/claim *)

Record claim_reply := mkClaimReply {
  cl_claimed : list item;
  cl_player : Player;
}.

(** One iteration of [for item in loot]. *)
Definition claim_entry (player : Player) (entry : item) : Player :=
  let name := item_name entry in
  let qty := get_qty 1 entry in
  if String.eqb name "Credits" then
    set_credits player (p_credits player + qty)
  else if bool_decide (name ∈ ["Scrap"; "Iron Scrap"]) then
    set_inventory player (add_stacked_item (p_inventory player) name qty)
  else
    set_inventory player (p_inventory player ++ [with_qty name qty]).

Definition claim_loot (sessions : gmap string Session) (session_id : string)
  : gmap string Session * http_result claim_reply :=
  match sessions !! session_id with
  | None => (sessions, session_not_found)
  | Some session =>
    let player := s_player session in
    let loot := s_unclaimed_loot session in
    let player := foldl claim_entry player loot in
    let session := set_unclaimed_loot (set_player session player) [] in
    (<[session_id := session]> sessions, Return (mkClaimReply loot player))
  end.

(** ** /state *)

Record state_reply := mkStateReply {
  st_player : Player;
  st_node : Node;
  st_combat : option Combat;
  st_loot : list item;
}.

(** [if "qty" not in item and "count" in item: item["qty"] = item["count"]] *)
Definition normalize_item (i : item) : item :=
  match item_qty i, item_count i with
  | None, Some c =>
    {| item_name := item_name i; item_qty := Some c; item_count := Some c |}
  | _, _ => i
  end.

Definition get_game_state (sessions : gmap string Session) (session_id : string)
  : gmap string Session * http_result state_reply :=
  match sessions !! session_id with
  | None => (sessions, session_not_found)
  | Some session =>
    let player := s_player session in
    let player := set_inventory player (normalize_item <$> p_inventory player) in
    let session := set_player session player in
    (<[session_id := session]> sessions,
     Return (mkStateReply player (s_node session) (s_combat session)
               (s_unclaimed_loot session)))
  end.

(** ** /unlock *)

Record unlock_reply := mkUnlockReply {
  u_success : bool;
  u_message : string;
  u_player : option Player;
}.

Definition unlock_costs : gmap string Z :=
  list_to_map [("delta_base", 50); ("node.delta.base", 50)].

Definition set_unlocked_locations (p : Player) (l : option (list string)) : Player :=
  mkPlayer (p_name p) (p_health p) (p_max_health p) (p_xp p) (p_xp_to_next p)
    (p_level p) (p_credits p) (p_inventory p) (p_plasma_durability p) l.

Definition unlock_location (sessions : gmap string Session)
    (session_id location_id : string)
  : gmap string Session * http_result unlock_reply :=
  match sessions !! session_id with
  | None => (sessions, session_not_found)
  | Some session =>
    let player := s_player session in
    match unlock_costs !! location_id with
    | None =>
      (sessions, Return (mkUnlockReply false "Unknown locked location." None))
    | Some cost =>
      if p_credits player <? cost then
        (sessions, Return (mkUnlockReply false "Not enough credits." None))
      else
        let player := set_credits player (p_credits player - cost) in
        let player :=
          set_unlocked_locations player
            (Some (default [] (p_unlocked_locations player) ++ [location_id])) in
        (<[session_id := set_player session player]> sessions,
         Return (mkUnlockReply true ("Unlocked " +:+ location_id +:+ "!")
                   (Some player)))
    end
  end.

(** ** The routes together

    One request to the router, and the state (session map and random
    generator) it leaves behind. *)

Inductive request : Type :=
  | PostStart (session_id : string)
  | GetState (session_id : string)
  | PostCommand (req : CommandRequest)
  | PostHeal (session_id : string)
  | PostShopBuy (req : ShopBuyRequest)
  | PostSearch (req : SearchRequest)
  | PostAdventure (session_id : string)
  | PostAttack (session_id : string) (enemy_id attack : Z)
  | PostLootClaim (session_id : string)
  | PostUnlock (session_id location_id : string).

Definition serve
    (execute_command_simple : string -> list string -> Session -> Session * command_result)
    (state : gmap string Session * rng) (rq : request)
  : gmap string Session * rng :=
  let '(sessions, g) := state in
  match rq with
  | PostStart session_id => ((start_game sessions session_id).1, g)
  | GetState session_id => ((get_game_state sessions session_id).1, g)
  | PostCommand req => ((run_command execute_command_simple sessions req).1, g)
  | PostHeal session_id => ((heal_player sessions session_id).1, g)
  | PostShopBuy req => ((shop_buy sessions req).1, g)
  | PostSearch req => (search sessions g req).1
  | PostAdventure session_id => (start_adventure sessions g session_id).1
  | PostAttack session_id enemy_id attack =>
    (attack_enemy sessions g session_id enemy_id attack).1
  | PostLootClaim session_id => ((claim_loot sessions session_id).1, g)
  | PostUnlock session_id location_id =>
    ((unlock_location sessions session_id location_id).1, g)
  end.

(** ** Well-formed sessions *)

Definition wf_item (i : item) : Prop := 0 < stack_qty i <= SCRAP_STACK_SIZE.

Definition wf_player (p : Player) : Prop :=
  0 <= p_health p <= p_max_health p /\
  0 <= p_credits p /\
  0 <= p_plasma_durability p /\
  0 <= p_level p /\
  Forall wf_item (p_inventory p).

Definition wf_combat (c : Combat) : Prop :=
  c_enemies c <> [] /\
  Forall (fun e => 0 < e_health e) (c_enemies c) /\
  NoDup (e_id <$> c_enemies c).

(** What [claim_entry] needs of a manifest entry to keep the player well
    formed: credits and scrap counts are not negative, any other entry is a
    stack of legal size. *)
Definition wf_loot_entry (entry : item) : Prop :=
  if bool_decide (item_name entry ∈ ["Credits"; "Scrap"; "Iron Scrap"])
  then 0 <= get_qty 1 entry
  else 0 < get_qty 1 entry <= SCRAP_STACK_SIZE.

Definition wf_session (s : Session) : Prop :=
  wf_player (s_player s) /\
  (forall c, s_combat s = Some c -> wf_combat c) /\
  Forall wf_loot_entry (s_unclaimed_loot s).

Definition wf_sessions (sessions : gmap string Session) : Prop :=
  map_Forall (fun _ s => wf_session s) sessions.

(** Stacks of [name] that still have room. *)
Definition partial_stacks (name : string) (inventory : list item) : list item :=
  filter (fun i => item_name i = name /\ stack_qty i < SCRAP_STACK_SIZE) inventory.

(** The session a request addresses. *)
Definition request_session (rq : request) : string :=
  match rq with
  | PostStart session_id | GetState session_id | PostHeal session_id
  | PostAdventure session_id | PostAttack session_id _ _
  | PostLootClaim session_id | PostUnlock session_id _ => session_id
  | PostCommand req => cr_session_id req
  | PostShopBuy req => sb_session_id req
  | PostSearch req => sr_session_id req
  end.

(** Units a manifest carries under [name], read the way [claim_loot] reads
    an entry. *)
Definition manifest_qty (name : string) (loot : list item) : Z :=
  sum_Z (get_qty 1 <$> filter (fun entry => item_name entry = name) loot).

(** The shape of a roster made by [start_adventure] for a player of the
    given level. *)
Definition raider_of_level (player_level : Z) (e : Enemy) : Prop :=
  player_level <= e_level e <= player_level + 1 /\
  e_name e = "Raider L" +:+ pretty (e_level e) /\
  e_health e = 40 + e_level e * 10 /\
  e_max_health e = 40 + e_level e * 10 /\
  e_attack e = 8 + e_level e * 2 /\
  e_credit_reward e = 10 + e_level e * 5.

(** An item as [search] finds it: one unit of an entry of its loot
    table. *)
Definition from_loot_table (i : item) : Prop :=
  exists name : string,
    name ∈ ["Scrap"; "Iron Scrap"; "Energy Cell"; "Nano Repair Kit"; "Medpack"] /\
    i = with_qty name 1.

(** ** The specification's account of a strike

    One [ResolveAttack] on a roster, in the words of the specification: the
    first enemy carrying the id takes [attack_power] damage, floored at 0
    health, and leaves the roster when its health has reached 0; when no
    enemy carries the id the roster stays as it is. *)
Fixpoint resolve_attack_roster (enemies : list Enemy) (enemy_id attack_power : Z)
  : list Enemy :=
  match enemies with
  | [] => []
  | e :: rest =>
    if bool_decide (e_id e = enemy_id) then
      let health := Z.max 0 (e_health e - attack_power) in
      if health <=? 0 then rest else set_enemy_health e health :: rest
    else e :: resolve_attack_roster rest enemy_id attack_power
  end.

(** The roster after a run of calls, each an enemy id and an attack power. *)
Definition resolve_attacks_roster (enemies : list Enemy) (calls : list (Z * Z))
  : list Enemy :=
  foldl (fun enemies call => resolve_attack_roster enemies call.1 call.2) enemies calls.

(** ** Statements of the specification that the code departs from *)

(** The counter-attack, for every attack power: whenever an enemy is left
    after the strike, the call answers, an enemy of the remaining roster
    hits the player for [max(4, floor(attack_power * 0.40))], and the
    player has lost that much health, floored at 0. *)
Definition counter_attack_as_stated : Prop :=
  forall (sessions : gmap string Session) (g : rng) (session_id : string)
         (enemy_id attack : Z) (session : Session) (combat : Combat),
    sessions !! session_id = Some session ->
    s_combat session = Some combat ->
    enemy_id ∈ e_id <$> c_enemies combat ->
    resolve_attack_roster (c_enemies combat) enemy_id attack <> [] ->
    exists (sessions' : gmap string Session) (g' : rng) (reply : attack_reply)
           (striker : Enemy),
      attack_enemy sessions g session_id enemy_id attack = (sessions', g', Return reply) /\
      striker ∈ a_enemies reply /\
      (e_name striker +:+ " hits you for "
         +:+ pretty (Z.max 4 (attack * 40 / 100)) +:+ " damage.") ∈ a_events reply /\
      p_health (a_player reply)
        = Z.max 0 (p_health (s_player session) - Z.max 4 (attack * 40 / 100)).

(** Search on a full inventory, with the credit bonus still granted. *)
Definition search_full_as_stated : Prop :=
  forall (sessions : gmap string Session) (g : rng) (req : SearchRequest)
         (session : Session),
    sessions !! sr_session_id req = Some session ->
    Z.of_nat (length (p_inventory (s_player session))) = MAX_INVENTORY_SLOTS ->
    exists sessions' g' reply session' bonus,
      search sessions g req = (sessions', g', Return reply) /\
      sr_ok reply = false /\
      sr_items reply = [] /\
      sessions' !! sr_session_id req = Some session' /\
      p_inventory (s_player session') = p_inventory (s_player session) /\
      5 <= bonus <= 25 /\
      p_credits (s_player session') = p_credits (s_player session) + bonus.

(** The durability rule read as one [if] / [else if] chain: at the last
    charge only the warning is appended, any other positive charge count is
    decremented. *)
Definition plasma_blaster_durability_as_stated (session : Session) : Session :=
  if holds "Plasma Blaster" (p_inventory (s_player session)) then
    if p_plasma_durability (s_player session) =? 1 then
      append_message session plasma_warning
    else if 0 <? p_plasma_durability (s_player session) then
      let player := s_player session in
      let player := set_plasma_durability player (p_plasma_durability player - 1) in
      let session := set_player session player in
      if p_plasma_durability player =? 0 then
        let player := set_inventory player
          (filter (fun i => item_name i <> "Plasma Blaster") (p_inventory player)) in
        append_message (set_player session player) plasma_breaks
      else session
    else session
  else session.

Definition durability_as_stated : Prop :=
  forall (sessions : gmap string Session) (g : rng) (session_id : string)
         (session : Session),
    sessions !! session_id = Some session ->
    holds "Plasma Blaster" (p_inventory (s_player session)) = true ->
    exists session',
      (start_adventure sessions g session_id).1.1 !! session_id = Some session' /\
      s_player session' = s_player (plasma_blaster_durability_as_stated session) /\
      s_messages session' = s_messages (plasma_blaster_durability_as_stated session).

(** ** Sample states *)

Definition scrap_holder : Session :=
  set_player new_session
    (set_credits
       (set_inventory new_player
          [stacked "Scrap" 64; with_qty "Scrap" 3; with_qty "Medpack" 1]) 10).

Definition raider (id health : Z) : Enemy :=
  mkEnemy id "Raider L1" health 50 10 1 15.

Definition fixed_rng : rng := mkRng (fun _ => 0%nat) 0.

Definition loot_holder : Session :=
  set_unclaimed_loot new_session
    [with_count "Credits" 30; with_count "Scrap" 3; with_count "Iron Scrap" 0].

Definition full_pack : Session :=
  set_player new_session
    (set_inventory new_player
       [with_qty "Medpack" 1; with_qty "Medpack" 1; with_qty "Armor" 1;
        with_qty "Weapon" 1; stacked "Scrap" 5; stacked "Iron Scrap" 2]).

Definition blaster_owner (durability : Z) : Session :=
  set_player new_session
    (set_plasma_durability
       (set_inventory new_player [with_qty "Plasma Blaster" 1; stacked "Scrap" 5])
       durability).

Definition two_raiders : Session :=
  set_unclaimed_loot
    (set_combat new_session (Some (mkCombat [raider 0 50; raider 1 30])))
    [with_count "Credits" 30; with_count "Scrap" 3; with_count "Iron Scrap" 0].

(** What the first strike on [two_raiders] (raider 0, attack 50) sends
    back. *)
Definition survivor_reply : attack_reply :=
  mkAttackReply
    ["You strike Raider L1 for 50 damage."; "Raider L1 is defeated!";
     "You loot 15 credits from Raider L1."; "Raider L1 hits you for 20 damage."]
    false None [raider 1 30] (Some [])
    (set_health (set_credits new_player 15) 80).

(** A pack stored before stacks carried a qty. *)
Definition legacy_pack : Session :=
  set_player new_session
    (set_inventory new_player [with_count "Scrap" 3; with_qty "Medpack" 1]).



Definition wealthy : Session := set_player new_session (set_credits new_player 120).

Definition tour : list request :=
  [PostStart "s1"; PostSearch (mkSearchRequest "s1"); PostAdventure "s1";
   PostAttack "s1" 0 100; PostLootClaim "s1"].

(* ================================================================== *)
(** * Properties *)

Lemma triple_eta {A B C : Type} (t : A * B * C) : t = (t.1.1, t.1.2, t.2).
Proof. by destruct t as [[a b] c]. Qed.

(** ** Stacking *)

Lemma stack_qty_get (i : item) : stack_qty i = get_qty 0 i.
Proof. unfold stack_qty. destruct (Z.eqb_spec (get_qty 0 i) 0); lia. Qed.

Lemma total_qty_nil name : total_qty name [] = 0.
Proof. reflexivity. Qed.

Lemma total_qty_cons_eq name i inv :
  item_name i = name -> total_qty name (i :: inv) = stack_qty i + total_qty name inv.
Proof. intros H. unfold total_qty. rewrite filter_cons_True by done. reflexivity. Qed.

Lemma total_qty_cons_ne name i inv :
  item_name i <> name -> total_qty name (i :: inv) = total_qty name inv.
Proof. intros H. unfold total_qty. rewrite filter_cons_False by done. reflexivity. Qed.

Lemma total_qty_app name inv1 inv2 :
  total_qty name (inv1 ++ inv2) = total_qty name inv1 + total_qty name inv2.
Proof.
  induction inv1 as [|i inv1 IH]; [reflexivity|].
  destruct (decide (item_name i = name)) as [E|E]; simpl.
  - rewrite !total_qty_cons_eq by done. lia.
  - rewrite !total_qty_cons_ne by done. done.
Qed.

Lemma other_stacks_cons_eq name i inv :
  item_name i = name -> other_stacks name (i :: inv) = other_stacks name inv.
Proof. intros H. unfold other_stacks. rewrite filter_cons_False; [done|]. intros ?. done. Qed.

Lemma other_stacks_cons_ne name i inv :
  item_name i <> name -> other_stacks name (i :: inv) = i :: other_stacks name inv.
Proof. intros H. unfold other_stacks. by rewrite filter_cons_True. Qed.

Lemma other_stacks_app name inv1 inv2 :
  other_stacks name (inv1 ++ inv2) = other_stacks name inv1 ++ other_stacks name inv2.
Proof. apply filter_app. Qed.

Lemma open_new_stacks_iter_fuel name (fuel1 : nat) : forall (fuel2 : nat) qty,
  (Z.to_nat qty <= fuel1)%nat -> (Z.to_nat qty <= fuel2)%nat ->
  open_new_stacks_iter fuel1 name qty = open_new_stacks_iter fuel2 name qty.
Proof.
  induction fuel1 as [|fuel1 IH]; intros fuel2 qty H1 H2.
  - destruct fuel2; simpl; [done|]. destruct (Z.ltb_spec 0 qty); [lia|done].
  - destruct fuel2 as [|fuel2]; simpl.
    + destruct (Z.ltb_spec 0 qty); [lia|done].
    + destruct (Z.ltb_spec 0 qty); [|done].
      f_equal. apply IH; unfold SCRAP_STACK_SIZE; lia.
Qed.

(** The loop equation of [while qty > 0]: the fuel never runs out. *)
Lemma open_new_stacks_unfold name qty :
  open_new_stacks name qty =
    if 0 <? qty then
      stacked name (Z.min SCRAP_STACK_SIZE qty)
        :: open_new_stacks name (qty - Z.min SCRAP_STACK_SIZE qty)
    else [].
Proof.
  unfold open_new_stacks at 1.
  destruct (Z.ltb_spec 0 qty) as [Hq|Hq].
  - destruct (Z.to_nat qty) as [|n] eqn:En; [lia|]. simpl.
    destruct (Z.ltb_spec 0 qty); [|lia]. f_equal.
    apply open_new_stacks_iter_fuel; unfold SCRAP_STACK_SIZE; lia.
  - replace (Z.to_nat qty) with 0%nat by lia. done.
Qed.

Lemma open_new_stacks_spec name (n : nat) : forall qty,
  (Z.to_nat qty <= n)%nat ->
  Forall (fun i => item_name i = name /\ 0 < stack_qty i <= SCRAP_STACK_SIZE)
    (open_new_stacks name qty) /\
  total_qty name (open_new_stacks name qty) = Z.max 0 qty.
Proof.
  induction n as [|n IH]; intros qty Hn; rewrite open_new_stacks_unfold;
    destruct (Z.ltb_spec 0 qty) as [Hq|Hq]; try lia;
    try (split; [constructor | rewrite total_qty_nil; lia]).
  destruct (IH (qty - Z.min SCRAP_STACK_SIZE qty)) as [IH1 IH2];
    [unfold SCRAP_STACK_SIZE; lia|].
  split.
  - constructor; [|done]. split; [done|]. rewrite stack_qty_get.
    unfold get_qty, SCRAP_STACK_SIZE. simpl. lia.
  - rewrite total_qty_cons_eq by done. rewrite IH2, stack_qty_get.
    unfold get_qty, SCRAP_STACK_SIZE. simpl. lia.
Qed.

Lemma fill_partial_stacks_spec name (inventory : list item) : forall qty inventory' r,
  fill_partial_stacks inventory name qty = (inventory', r) ->
  0 <= qty ->
  other_stacks name inventory' = other_stacks name inventory /\
  (within_stack_size name inventory -> within_stack_size name inventory') /\
  match r with
  | None => total_qty name inventory' = total_qty name inventory + qty
  | Some qty' =>
    0 <= qty' /\ total_qty name inventory' + qty' = total_qty name inventory + qty
  end.
Proof.
  induction inventory as [|i rest IH]; intros qty inventory' r Hf Hq; simpl in Hf.
  - inversion Hf; subst. repeat split; [done|lia..].
  - destruct (String.eqb_spec (item_name i) name) as [En|En]; simpl in Hf.
    + destruct (Z.leb_spec SCRAP_STACK_SIZE (stack_qty i)) as [Hfull|Hpart].
      * destruct (fill_partial_stacks rest name qty) as [rest' r'] eqn:Er.
        inversion Hf; subst inventory' r'. clear Hf.
        destruct (IH _ _ _ Er Hq) as (Ho & Hw & Ht).
        rewrite !other_stacks_cons_eq by done.
        rewrite !total_qty_cons_eq by done.
        split; [done|]. split.
        { intros Hall. inversion Hall; subst. constructor; [done|]. by apply Hw. }
        destruct r; lia.
      * set (add_now := Z.min (SCRAP_STACK_SIZE - stack_qty i) qty) in *.
        assert (Hnew : stack_qty (set_qty_count i (stack_qty i + add_now))
                       = stack_qty i + add_now).
        { rewrite (stack_qty_get (set_qty_count _ _)). reflexivity. }
        destruct (Z.leb_spec (qty - add_now) 0) as [Hdone|Hmore].
        -- inversion Hf; subst inventory' r. clear Hf.
           rewrite !other_stacks_cons_eq by done.
           rewrite !total_qty_cons_eq by done.
           split; [done|]. split.
           { intros Hall. inversion Hall; subst. constructor; [|done].
             intros _. rewrite Hnew. lia. }
           rewrite Hnew. lia.
        -- destruct (fill_partial_stacks rest name (qty - add_now)) as [rest' r'] eqn:Er.
           inversion Hf; subst inventory' r'. clear Hf.
           destruct (IH _ _ _ Er ltac:(lia)) as (Ho & Hw & Ht).
           rewrite !other_stacks_cons_eq by done.
           rewrite !total_qty_cons_eq by done.
           split; [done|]. split.
           { intros Hall. inversion Hall; subst. constructor; [|by apply Hw].
             intros _. rewrite Hnew. lia. }
           rewrite Hnew. destruct r; lia.
    + destruct (fill_partial_stacks rest name qty) as [rest' r'] eqn:Er.
      inversion Hf; subst inventory' r'. clear Hf.
      destruct (IH _ _ _ Er Hq) as (Ho & Hw & Ht).
      rewrite !other_stacks_cons_ne by done.
      rewrite !total_qty_cons_ne by done.
      split; [by rewrite Ho|]. split; [|done].
      intros Hall. inversion Hall; subst. constructor; [done|]. by apply Hw.
Qed.

Lemma add_stacked_item_spec (inventory : list item) name qty :
  0 <= qty ->
  other_stacks name (add_stacked_item inventory name qty) = other_stacks name inventory /\
  (within_stack_size name inventory ->
   within_stack_size name (add_stacked_item inventory name qty)) /\
  total_qty name (add_stacked_item inventory name qty) = total_qty name inventory + qty.
Proof.
  intros Hq. unfold add_stacked_item.
  destruct (fill_partial_stacks inventory name qty) as [inventory' r] eqn:Ef.
  destruct (fill_partial_stacks_spec _ _ _ _ _ Ef Hq) as (Ho & Hw & Ht).
  destruct r as [qty'|]; [|done].
  destruct Ht as [Hq' Ht].
  destruct (open_new_stacks_spec name (Z.to_nat qty') qty' ltac:(lia)) as [Hn Hs].
  rewrite other_stacks_app, total_qty_app, Hs, Ho.
  split; [|split; [|lia]].
  - replace (other_stacks name (open_new_stacks name qty')) with (@nil item);
      [by rewrite app_nil_r|].
    symmetry. unfold other_stacks. clear -Hn.
    induction Hn as [|i l [Hi _] _ IH]; [done|].
    rewrite filter_cons_False; [done|]. intros ?. done.
  - intros Hall. apply Forall_app. split; [by apply Hw|].
    eapply Forall_impl; [exact Hn|]. intros i [_ Hi] _. lia.
Qed.

(** C1: for every inventory whose stacks of the name hold at most 64 units
    (every inventory the stacking rules allow) and every run of
    [add_stacked_item] calls with that item name and positive quantities,
    no stack of the name holds more than 64 units after the calls, the total
    held under the name is the total held before plus the sum of the
    quantities, and the stacks of every other name are left as they
    were. *)
Theorem add_stacked_items_spec (inventory : list item) (name : string) (qtys : list Z) :
  within_stack_size name inventory ->
  Forall (fun q => 0 < q) qtys ->
  within_stack_size name (add_stacked_items inventory name qtys) /\
  total_qty name (add_stacked_items inventory name qtys)
    = total_qty name inventory + sum_Z qtys /\
  other_stacks name (add_stacked_items inventory name qtys)
    = other_stacks name inventory.
Proof.
  intros Hw Hqs. revert inventory Hw.
  induction Hqs as [|q qtys Hq _ IH]; intros inventory Hw; simpl.
  - repeat split; [done|lia].
  - destruct (add_stacked_item_spec inventory name q ltac:(lia)) as (Ho & Hw' & Ht).
    destruct (IH (add_stacked_item inventory name q) (Hw' Hw)) as (IHw & IHt & IHo).
    split; [done|].
    split; [|congruence].
    unfold add_stacked_items in *. simpl. lia.
Qed.

Lemma add_stacked_items_spec_witness :
  within_stack_size "Scrap"
    (add_stacked_items [stacked "Scrap" 60; with_qty "Medpack" 1] "Scrap" [10; 70]) /\
  total_qty "Scrap"
    (add_stacked_items [stacked "Scrap" 60; with_qty "Medpack" 1] "Scrap" [10; 70]) = 140.
Proof.
  assert (Hq : Forall (fun q => 0 < q) [10; 70]) by (repeat constructor).
  assert (Hw : within_stack_size "Scrap" [stacked "Scrap" 60; with_qty "Medpack" 1]).
  { repeat constructor; intros E; vm_compute; congruence. }
  destruct (add_stacked_items_spec
              [stacked "Scrap" 60; with_qty "Medpack" 1] "Scrap" [10; 70] Hw Hq)
    as (H1 & H2 & _).
  split; [exact H1 | exact H2].
Defined.

(** ** Healing *)

(** C10: for an existing session, [heal_player] sets the player's health to
    [min(max_health, health + 15)]; the health grows by at most 15, ends at
    or below [max_health], and every other field of the player, the rest of
    the session and every other session stay as they were. *)
Theorem heal_player_spec (sessions : gmap string Session) (session_id : string)
    (session : Session) :
  sessions !! session_id = Some session ->
  exists player' : Player,
    heal_player sessions session_id
      = (<[session_id := set_player session player']> sessions,
         Return (mkHealReply "Healed for 15" player')) /\
    p_health player'
      = Z.min (p_max_health (s_player session)) (p_health (s_player session) + 15) /\
    p_health player' - p_health (s_player session) <= 15 /\
    p_health player' <= p_max_health player' /\
    p_credits player' = p_credits (s_player session) /\
    p_inventory player' = p_inventory (s_player session) /\
    p_plasma_durability player' = p_plasma_durability (s_player session) /\
    p_level player' = p_level (s_player session) /\
    p_xp player' = p_xp (s_player session) /\
    p_xp_to_next player' = p_xp_to_next (s_player session) /\
    p_max_health player' = p_max_health (s_player session) /\
    p_name player' = p_name (s_player session) /\
    p_unlocked_locations player' = p_unlocked_locations (s_player session).
Proof.
  intros Hs. unfold heal_player. rewrite Hs.
  eexists. split; [reflexivity|]. simpl. repeat split; lia.
Qed.

Lemma heal_player_spec_witness :
  exists player' : Player,
    heal_player {[ "s1" := set_player new_session (set_health new_player 90) ]} "s1"
      = (<[ "s1" := set_player (set_player new_session (set_health new_player 90)) player' ]>
           {[ "s1" := set_player new_session (set_health new_player 90) ]},
         Return (mkHealReply "Healed for 15" player')) /\
    p_health player' = 100.
Proof.
  destruct (heal_player_spec
              {[ "s1" := set_player new_session (set_health new_player 90) ]} "s1"
              (set_player new_session (set_health new_player 90)))
    as (player' & H1 & H2 & _).
  - apply lookup_singleton_eq.
  - exists player'. split; [exact H1 | exact H2].
Defined.

(** ** Purchases *)

(** C7: when the item's price exceeds the player's credits, [shop_buy]
    answers "Not enough credits." and when the name has no price it answers
    that the item cannot be bought; in both cases the whole session store,
    and with it the player's credits, inventory and plasma durability, is
    returned as it was. *)
Theorem shop_buy_failures (sessions : gmap string Session) (req : ShopBuyRequest)
    (session : Session) :
  sessions !! sb_session_id req = Some session ->
  (forall cost : Z,
     PRICES !! sb_item_name req = Some cost ->
     p_credits (s_player session) < cost ->
     shop_buy sessions req
       = (sessions, Return (mkReply false "Not enough credits." None None))) /\
  (PRICES !! sb_item_name req = None ->
   shop_buy sessions req
     = (sessions,
        Return (mkReply false (sb_item_name req +:+ " cannot be bought here.")
                  None None))).
Proof.
  intros Hs. split.
  - intros cost Hcost Hlt. unfold shop_buy. rewrite Hs, Hcost.
    destruct (Z.ltb_spec (p_credits (s_player session)) cost); [done|lia].
  - intros Hnone. unfold shop_buy. by rewrite Hs, Hnone.
Qed.

Lemma shop_buy_failures_witness :
  shop_buy {[ "s1" := new_session ]} (mkShopBuyRequest "s1" "Armor")
    = ({[ "s1" := new_session ]},
       Return (mkReply false "Not enough credits." None None)) /\
  shop_buy {[ "s1" := new_session ]} (mkShopBuyRequest "s1" "Sword")
    = ({[ "s1" := new_session ]},
       Return (mkReply false "Sword cannot be bought here." None None)).
Proof.
  split.
  - refine (proj1 (shop_buy_failures {[ "s1" := new_session ]}
                     (mkShopBuyRequest "s1" "Armor") new_session _) 80 _ _).
    + reflexivity.
    + reflexivity.
    + reflexivity.
  - refine (proj2 (shop_buy_failures {[ "s1" := new_session ]}
                     (mkShopBuyRequest "s1" "Sword") new_session _) _).
    + reflexivity.
    + reflexivity.
Defined.

(** ** Deposits *)

(** C6: for an existing session, the [deposit_scrap] command with a valid
    scrap type adds [rate] times the total quantity held under that name to
    the credits (rate 2 for "Scrap", 5 for "Iron Scrap") and keeps exactly
    the stacks of other names; with a missing or any other scrap type it
    answers "Invalid scrap type." and returns the store as it was. *)
Theorem deposit_scrap_spec
    (execute_command_simple : string -> list string -> Session -> Session * command_result)
    (sessions : gmap string Session) (req : CommandRequest) (session : Session) :
  sessions !! cr_session_id req = Some session ->
  cr_command req = "deposit_scrap" ->
  (forall (scrap_type : string) (rest : list string) (rate : Z),
     cr_args req = Some (scrap_type :: rest) ->
     (scrap_type = "Scrap" /\ rate = 2) \/ (scrap_type = "Iron Scrap" /\ rate = 5) ->
     exists (player' : Player) (msg : string),
       run_command execute_command_simple sessions req
         = (<[cr_session_id req := set_player session player']> sessions,
            Return (mkReply true msg None (Some player'))) /\
       p_credits player'
         = p_credits (s_player session)
           + rate * total_qty scrap_type (p_inventory (s_player session)) /\
       p_inventory player' = other_stacks scrap_type (p_inventory (s_player session)) /\
       Forall (fun i => item_name i <> scrap_type) (p_inventory player') /\
       p_plasma_durability player' = p_plasma_durability (s_player session) /\
       p_health player' = p_health (s_player session)) /\
  (head (default [] (cr_args req)) <> Some "Scrap" ->
   head (default [] (cr_args req)) <> Some "Iron Scrap" ->
   run_command execute_command_simple sessions req
     = (sessions, Return (mkReply false "Invalid scrap type." None None))).
Proof.
  intros Hs Hc. split.
  - intros scrap_type rest rate Hargs Hrate.
    unfold run_command. rewrite Hs, Hc. simpl.
    unfold deposit_scrap. rewrite Hargs. simpl.
    assert (Hin : bool_decide (scrap_type ∈ ["Scrap"; "Iron Scrap"]) = true).
    { apply bool_decide_eq_true. destruct Hrate as [[-> _]|[-> _]]; set_solver. }
    rewrite Hin. simpl.
    eexists _, _. split; [reflexivity|]. simpl.
    split; [|split; [reflexivity|split; [|done]]].
    + unfold total_qty. destruct Hrate as [[-> ->]|[-> ->]]; simpl; lia.
    + apply Forall_forall. intros i Hi. unfold other_stacks in Hi.
      apply list_elem_of_filter in Hi. tauto.
  - intros H1 H2. unfold run_command. rewrite Hs, Hc. simpl.
    unfold deposit_scrap.
    destruct (head (default [] (cr_args req))) as [scrap_type|] eqn:Eh.
    + assert (Hin : bool_decide (scrap_type ∈ ["Scrap"; "Iron Scrap"]) = false).
      { apply bool_decide_eq_false. intros Hin.
        apply elem_of_cons in Hin as [->|Hin]; [done|].
        apply elem_of_cons in Hin as [->|Hin]; [done|].
        by apply elem_of_nil in Hin. }
      rewrite Hin. simpl. by rewrite insert_id.
    + by rewrite insert_id.
Qed.

Lemma deposit_scrap_spec_witness :
  (exists (player' : Player) (msg : string),
     run_command execute_command_unavailable {[ "s1" := scrap_holder ]}
       (mkCommandRequest "s1" "deposit_scrap" (Some ["Scrap"]))
       = (<[ "s1" := set_player scrap_holder player' ]> {[ "s1" := scrap_holder ]},
          Return (mkReply true msg None (Some player'))) /\
     p_credits player' = 144 /\
     p_inventory player' = [with_qty "Medpack" 1]) /\
  run_command execute_command_unavailable {[ "s1" := scrap_holder ]}
    (mkCommandRequest "s1" "deposit_scrap" (Some ["Gold"]))
    = ({[ "s1" := scrap_holder ]},
       Return (mkReply false "Invalid scrap type." None None)).
Proof.
  assert (Hs : forall args,
             ({[ "s1" := scrap_holder ]} : gmap string Session)
               !! cr_session_id (mkCommandRequest "s1" "deposit_scrap" args)
             = Some scrap_holder) by (intros; reflexivity).
  split.
  - destruct (proj1 (deposit_scrap_spec execute_command_unavailable
                       {[ "s1" := scrap_holder ]}
                       (mkCommandRequest "s1" "deposit_scrap" (Some ["Scrap"]))
                       scrap_holder (Hs _) eq_refl)
                "Scrap" [] 2 eq_refl (or_introl (conj eq_refl eq_refl)))
      as (player' & msg & H1 & H2 & H3 & _).
    exists player', msg. split; [exact H1|]. split; [exact H2 | exact H3].
  - refine (proj2 (deposit_scrap_spec execute_command_unavailable
                     {[ "s1" := scrap_holder ]}
                     (mkCommandRequest "s1" "deposit_scrap" (Some ["Gold"]))
                     scrap_holder (Hs _) eq_refl) _ _); simpl; congruence.
Defined.

(** ** Attacks *)

(** C8: [attack_enemy] raises "No active combat" when the session has no
    combat and "Invalid enemy id" when no enemy of the roster carries the
    id; in both cases the store (player, roster, unclaimed loot) and the
    random generator are returned as they were. *)
Theorem attack_enemy_failures (sessions : gmap string Session) (g : rng)
    (session_id : string) (enemy_id attack : Z) (session : Session) :
  sessions !! session_id = Some session ->
  (s_combat session = None ->
   attack_enemy sessions g session_id enemy_id attack
     = (sessions, g, HTTPException 400 "No active combat")) /\
  (forall combat : Combat,
     s_combat session = Some combat ->
     Forall (fun e => e_id e <> enemy_id) (c_enemies combat) ->
     attack_enemy sessions g session_id enemy_id attack
       = (sessions, g, HTTPException 400 "Invalid enemy id")).
Proof.
  intros Hs. unfold attack_enemy, attack_session. rewrite Hs. split.
  - intros ->. by rewrite insert_id.
  - intros combat -> Hall.
    assert (Hf : list_find (fun e => e_id e = enemy_id) (c_enemies combat) = None)
      by (by apply list_find_None).
    rewrite Hf. by rewrite insert_id.
Qed.

Lemma attack_enemy_failures_witness :
  attack_enemy {[ "s1" := new_session ]} fixed_rng "s1" 0 10
    = ({[ "s1" := new_session ]}, fixed_rng, HTTPException 400 "No active combat") /\
  attack_enemy {[ "s1" := set_combat new_session (Some (mkCombat [raider 0 50])) ]}
      fixed_rng "s1" 7 10
    = ({[ "s1" := set_combat new_session (Some (mkCombat [raider 0 50])) ]},
       fixed_rng, HTTPException 400 "Invalid enemy id").
Proof.
  split.
  - refine (proj1 (attack_enemy_failures {[ "s1" := new_session ]} fixed_rng "s1"
                     0 10 new_session _) eq_refl).
    reflexivity.
  - refine (proj2 (attack_enemy_failures
                     {[ "s1" := set_combat new_session (Some (mkCombat [raider 0 50])) ]}
                     fixed_rng "s1" 7 10
                     (set_combat new_session (Some (mkCombat [raider 0 50]))) _)
              (mkCombat [raider 0 50]) eq_refl _).
    + reflexivity.
    + repeat constructor. simpl. lia.
Defined.

(** ** Claiming loot *)

(** C9: for an existing session, [claim_loot] hands out the unclaimed
    manifest (credits and items are added to the player entry by entry) and
    leaves an empty manifest behind; a second call right after returns an
    empty claimed list and changes nothing, the player's credits and
    inventory included. *)
Theorem claim_loot_twice (sessions : gmap string Session) (session_id : string)
    (session : Session) :
  sessions !! session_id = Some session ->
  exists (sessions1 : gmap string Session) (session1 : Session),
    claim_loot sessions session_id
      = (sessions1,
         Return (mkClaimReply (s_unclaimed_loot session) (s_player session1))) /\
    sessions1 !! session_id = Some session1 /\
    s_player session1 = foldl claim_entry (s_player session) (s_unclaimed_loot session) /\
    s_unclaimed_loot session1 = [] /\
    claim_loot sessions1 session_id
      = (sessions1, Return (mkClaimReply [] (s_player session1))).
Proof.
  intros Hs. unfold claim_loot at 1. rewrite Hs.
  exists (<[session_id :=
             set_unclaimed_loot
               (set_player session
                  (foldl claim_entry (s_player session) (s_unclaimed_loot session)))
               []]> sessions),
         (set_unclaimed_loot
            (set_player session
               (foldl claim_entry (s_player session) (s_unclaimed_loot session)))
            []).
  split; [reflexivity|].
  split; [apply lookup_insert_eq|].
  split; [reflexivity|]. split; [reflexivity|].
  unfold claim_loot. rewrite lookup_insert_eq. simpl.
  by rewrite insert_insert_eq.
Qed.

Lemma claim_loot_twice_witness :
  exists (sessions1 : gmap string Session) (session1 : Session),
    claim_loot {[ "s1" := loot_holder ]} "s1"
      = (sessions1,
         Return (mkClaimReply
                   [with_count "Credits" 30; with_count "Scrap" 3;
                    with_count "Iron Scrap" 0]
                   (s_player session1))) /\
    p_credits (s_player session1) = 30 /\
    p_inventory (s_player session1) = [stacked "Scrap" 3] /\
    claim_loot sessions1 "s1"
      = (sessions1, Return (mkClaimReply [] (s_player session1))).
Proof.
  destruct (claim_loot_twice {[ "s1" := loot_holder ]} "s1" loot_holder)
    as (sessions1 & session1 & H1 & _ & H3 & _ & H5).
  - reflexivity.
  - exists sessions1, session1.
    split; [exact H1|].
    split; [rewrite H3; reflexivity|].
    split; [rewrite H3; reflexivity | exact H5].
Defined.

(** ** Searching *)

Lemma search_full (sessions : gmap string Session) (g : rng) (req : SearchRequest)
    (session : Session) :
  sessions !! sr_session_id req = Some session ->
  MAX_INVENTORY_SLOTS <= Z.of_nat (length (p_inventory (s_player session))) ->
  search sessions g req
    = (sessions, g,
       Return (mkSearchReply false
                 "Your inventory is full. You leave any scraps you find behind."
                 (s_player session) [] 0)).
Proof.
  intros Hs Hfull. unfold search. rewrite Hs.
  destruct (Z.leb_spec MAX_INVENTORY_SLOTS
              (Z.of_nat (length (p_inventory (s_player session))))); [done|lia].
Qed.

(** C4, as amended: for a session whose inventory already holds
    [MAX_INVENTORY_SLOTS] (6) stacks or more, [search] answers with the
    inventory-full reply, no items and [credits_gained = 0]; the store, and
    with it the player's inventory and credits, is returned as it was and
    no random number is drawn. *)
Theorem search_inventory_full (sessions : gmap string Session) (g : rng)
    (req : SearchRequest) (session : Session) :
  sessions !! sr_session_id req = Some session ->
  MAX_INVENTORY_SLOTS <= Z.of_nat (length (p_inventory (s_player session))) ->
  exists reply : search_reply,
    search sessions g req = (sessions, g, Return reply) /\
    sr_ok reply = false /\
    sr_msg reply = "Your inventory is full. You leave any scraps you find behind." /\
    sr_items reply = [] /\
    sr_credits_gained reply = 0 /\
    sr_player reply = s_player session.
Proof.
  intros Hs Hfull. eexists. split; [by apply search_full|]. done.
Qed.

Lemma search_inventory_full_witness :
  exists reply : search_reply,
    search {[ "s1" := full_pack ]} fixed_rng (mkSearchRequest "s1")
      = ({[ "s1" := full_pack ]}, fixed_rng, Return reply) /\
    sr_credits_gained reply = 0 /\
    sr_player reply = s_player full_pack.
Proof.
  destruct (search_inventory_full {[ "s1" := full_pack ]} fixed_rng
              (mkSearchRequest "s1") full_pack)
    as (reply & H1 & _ & _ & _ & H5 & H6).
  - reflexivity.
  - vm_compute. discriminate.
  - exists reply. split; [exact H1|]. split; [exact H5 | exact H6].
Defined.

(** C4, as worded, fails: on a full inventory [search] returns before the
    credit bonus is rolled, so the credits do not grow. *)
Lemma search_full_as_stated_fails : ~ search_full_as_stated.
Proof.
  intros H.
  destruct (H {[ "s1" := full_pack ]} fixed_rng (mkSearchRequest "s1") full_pack)
    as (sessions' & g' & reply & session' & bonus & He & _ & _ & Hl & _ & Hb & Hc).
  - reflexivity.
  - reflexivity.
  - rewrite (search_full _ _ _ full_pack) in He;
      [|reflexivity|vm_compute; discriminate].
    inversion He; subst sessions'.
    change (({[ "s1" := full_pack ]} : gmap string Session) !! "s1" = Some session')
      in Hl.
    rewrite lookup_singleton_eq in Hl. inversion Hl; subst session'.
    simpl in Hc. lia.
Qed.

(** ** Starting an adventure *)

(** What [start_adventure] leaves in the session: the player and the
    messages come out of the durability block, the combat and the loot are
    the ones sent back. *)
Lemma start_adventure_session (sessions : gmap string Session) (g : rng)
    (session_id : string) (session : Session) :
  sessions !! session_id = Some session ->
  exists (session' : Session) (g' : rng) (reply : adventure_reply),
    start_adventure sessions g session_id
      = (<[session_id := session']> sessions, g', Return reply) /\
    s_player session' = s_player (plasma_blaster_durability session) /\
    s_messages session' = s_messages (plasma_blaster_durability session) /\
    s_combat session' = Some (mkCombat (adv_enemies reply)) /\
    s_unclaimed_loot session' = adv_loot reply.
Proof.
  intros Hs. unfold start_adventure. rewrite Hs.
  destruct (randint 1 2 g) as [enemy_count g1].
  destruct (spawn_raiders _ _ _ g1) as [enemies g2].
  destruct (randint 20 60 g2) as [credits_count g3].
  destruct (randint 1 4 g3) as [scrap_count g4].
  destruct (randint 0 2 g4) as [iron_count g5].
  eexists _, _, _. split; [reflexivity|]. done.
Qed.

(** C5, as amended: when the player holds the Plasma Blaster as
    [start_adventure] runs, the two tests of the durability block are made
    one after the other. At durability 1 the warning is appended, the
    durability drops to 0, the weapon is removed from the inventory and the
    weapon-breaks message is appended after the warning. At a durability
    above 1 it is decremented and nothing else changes. At a durability of
    0 or less the player and the messages stay as they were. *)
Theorem start_adventure_durability (sessions : gmap string Session) (g : rng)
    (session_id : string) (session : Session) :
  sessions !! session_id = Some session ->
  holds "Plasma Blaster" (p_inventory (s_player session)) = true ->
  exists session' : Session,
    (start_adventure sessions g session_id).1.1 !! session_id = Some session' /\
    (p_plasma_durability (s_player session) = 1 ->
     s_player session'
       = set_inventory (set_plasma_durability (s_player session) 0)
           (filter (fun i => item_name i <> "Plasma Blaster")
              (p_inventory (s_player session))) /\
     s_messages session'
       = Some (default [] (s_messages session) ++ [plasma_warning; plasma_breaks])) /\
    (1 < p_plasma_durability (s_player session) ->
     s_player session'
       = set_plasma_durability (s_player session)
           (p_plasma_durability (s_player session) - 1) /\
     s_messages session' = s_messages session) /\
    (p_plasma_durability (s_player session) <= 0 ->
     s_player session' = s_player session /\
     s_messages session' = s_messages session).
Proof.
  intros Hs Hh.
  destruct (start_adventure_session sessions g session_id session Hs)
    as (session' & g' & reply & He & Hp & Hm & _).
  exists session'. rewrite He. simpl. split; [apply lookup_insert_eq|].
  rewrite Hp, Hm. unfold plasma_blaster_durability. rewrite Hh.
  clear He Hp Hm. split; [|split].
  - intros Hd. rewrite Hd. simpl. rewrite !Hd. simpl.
    split; [reflexivity|]. by rewrite <- app_assoc.
  - intros Hd.
    destruct (Z.eqb_spec (p_plasma_durability (s_player session)) 1); [lia|].
    destruct (Z.ltb_spec 0 (p_plasma_durability (s_player session))); [|lia].
    simpl.
    destruct (Z.eqb_spec (p_plasma_durability (s_player session) - 1) 0); [lia|].
    done.
  - intros Hd.
    destruct (Z.eqb_spec (p_plasma_durability (s_player session)) 1); [lia|].
    destruct (Z.ltb_spec 0 (p_plasma_durability (s_player session))); [lia|].
    done.
Qed.

Lemma start_adventure_durability_witness :
  exists session' : Session,
    (start_adventure {[ "s1" := blaster_owner 1 ]} fixed_rng "s1").1.1 !! "s1"
      = Some session' /\
    p_plasma_durability (s_player session') = 0 /\
    p_inventory (s_player session') = [stacked "Scrap" 5] /\
    s_messages session' = Some [plasma_warning; plasma_breaks].
Proof.
  destruct (start_adventure_durability {[ "s1" := blaster_owner 1 ]} fixed_rng "s1"
              (blaster_owner 1))
    as (session' & H1 & H2 & _).
  - reflexivity.
  - reflexivity.
  - destruct (H2 eq_refl) as [Hp Hm].
    exists session'. split; [exact H1|].
    rewrite Hp, Hm. repeat split; reflexivity.
Defined.

(** C5, as worded, fails at the last charge: the code does not stop after
    the warning, it also spends the charge and breaks the weapon. *)
Lemma durability_as_stated_fails : ~ durability_as_stated.
Proof.
  intros H.
  destruct (H {[ "s1" := blaster_owner 1 ]} fixed_rng "s1" (blaster_owner 1))
    as (session' & Hl & Hp & _).
  - reflexivity.
  - reflexivity.
  - destruct (start_adventure_session {[ "s1" := blaster_owner 1 ]} fixed_rng "s1"
                (blaster_owner 1) (lookup_singleton_eq _ _))
      as (session'' & g' & reply & He & Hp' & _).
    rewrite He in Hl. simpl in Hl. rewrite lookup_insert_eq in Hl.
    inversion Hl; subst session''.
    rewrite Hp' in Hp.
    apply (f_equal p_plasma_durability) in Hp. vm_compute in Hp. discriminate.
Qed.

(** ** Combat *)

Lemma binary64_0_40_nearest :
  SFdiv 53 1024 (S754_finite false 2 0) (S754_finite false 5 0) = binary64_0_40.
Proof. vm_compute. reflexivity. Qed.

(** *** The counter-damage in binary64 *)

Lemma digits2_pos_size (p : positive) : digits2_pos p = Pos.size p.
Proof. induction p; simpl; congruence. Qed.

Lemma Zdigits2_bounds (p : positive) :
  2 ^ (Z.pos (digits2_pos p) - 1) <= Z.pos p < 2 ^ Z.pos (digits2_pos p).
Proof.
  rewrite digits2_pos_size. split.
  - pose proof (Pos.size_le p) as H.
    assert (H' : 2 ^ Z.pos (Pos.size p) <= 2 * Z.pos p).
    { change (2 * Z.pos p) with (Z.pos p~0). rewrite <- Pos2Z.inj_pow. exact H. }
    replace (Z.pos (Pos.size p)) with (Z.pos (Pos.size p) - 1 + 1) in H' by lia.
    rewrite Z.pow_add_r in H' by lia. lia.
  - pose proof (Pos.size_gt p) as H.
    change 2 with (Z.pos 2). rewrite <- Pos2Z.inj_pow. exact H.
Qed.

Lemma Zdigits2_unique (p : positive) (d : Z) :
  2 ^ (d - 1) <= Z.pos p < 2 ^ d -> Z.pos (digits2_pos p) = d.
Proof.
  intros [Hl Hu]. pose proof (Zdigits2_bounds p) as [Hl' Hu'].
  assert (0 < d).
  { destruct (Z.ltb_spec 0 d); [done|]. exfalso.
    destruct (Z.eq_dec d 0) as [->|]; [simpl in Hu; lia|].
    rewrite Z.pow_neg_r in Hu by lia. lia. }
  destruct (Z.lt_trichotomy (Z.pos (digits2_pos p)) d) as [Hlt|[Heq|Hgt]]; [|done|].
  - exfalso. assert (2 ^ Z.pos (digits2_pos p) <= 2 ^ (d - 1))
      by (apply Z.pow_le_mono_r; lia). lia.
  - exfalso. assert (2 ^ d <= 2 ^ (Z.pos (digits2_pos p) - 1))
      by (apply Z.pow_le_mono_r; lia). lia.
Qed.

Lemma shr_1_m (mrs : shr_record) :
  0 <= shr_m mrs -> shr_m (shr_1 mrs) = shr_m mrs / 2.
Proof.
  destruct mrs as [m r s]. simpl. intros Hm.
  rewrite <- Z.div2_div.
  destruct m as [|p|p]; [done| |lia]. by destruct p.
Qed.

Lemma iter_shr_1_m (n : positive) : forall mrs : shr_record,
  0 <= shr_m mrs ->
  shr_m (SpecFloat.iter_pos shr_1 n mrs) = shr_m mrs / 2 ^ Z.pos n.
Proof.
  induction n as [n IH|n IH|]; intros mrs Hm; cbn [SpecFloat.iter_pos].
  - assert (H1 : 0 <= shr_m (shr_1 mrs)) by (rewrite shr_1_m by done; apply Z.div_pos; lia).
    assert (H2 : 0 <= shr_m (SpecFloat.iter_pos shr_1 n (shr_1 mrs)))
      by (rewrite IH by done; apply Z.div_pos; lia).
    rewrite IH, IH, shr_1_m by done.
    rewrite !Z.div_div by lia. f_equal.
    replace (Z.pos n~1) with (1 + Z.pos n + Z.pos n) by lia.
    rewrite !Z.pow_add_r by lia. change (2 ^ 1) with 2. ring.
  - assert (H2 : 0 <= shr_m (SpecFloat.iter_pos shr_1 n mrs))
      by (rewrite IH by done; apply Z.div_pos; lia).
    rewrite IH, IH by done.
    rewrite !Z.div_div by lia. f_equal.
    replace (Z.pos n~0) with (Z.pos n + Z.pos n) by lia.
    rewrite !Z.pow_add_r by lia. ring.
  - by rewrite shr_1_m.
Qed.

Lemma shr_m_shift (mrs : shr_record) (e n : Z) :
  0 <= shr_m mrs -> 0 <= n ->
  shr_m (shr mrs e n).1 = shr_m mrs / 2 ^ n /\ (shr mrs e n).2 = e + n.
Proof.
  intros Hm Hn. unfold shr. destruct n as [|p|p]; [| |lia].
  - simpl. rewrite Z.div_1_r. split; [done|lia].
  - simpl. by rewrite iter_shr_1_m.
Qed.

Lemma round_nearest_even_range (m : Z) (l : location) :
  m <= round_nearest_even m l <= m + 1.
Proof. destruct l as [|[]]; simpl; try lia. destruct (Z.even m); lia. Qed.

Lemma fexp_normal (d : Z) : -1021 <= d -> fexp 53 1024 d = d - 53.
Proof. intros H. unfold fexp, emin. lia. Qed.

(** The integer part of a product rounded to binary64, when the exact
    product has more than 53 digits and lies below [1]'s exponent. *)
Lemma int_of_binary_round_aux (s : bool) (mx : positive) (ex : Z) :
  let n := Z.pos (digits2_pos mx) - 53 in
  0 < n -> -1074 <= ex + n -> ex + n < 0 ->
  exists m2 : Z,
    Z.pos mx / 2 ^ n <= m2 <= Z.pos mx / 2 ^ n + 1 /\
    int_of_binary64 (binary_round_aux 53 1024 s (Z.pos mx) ex loc_Exact)
      = Some (cond_Zopp s (m2 / 2 ^ (- (ex + n)))).
Proof.
  intros n Hn Hlo Hhi.
  pose proof (Zdigits2_bounds mx) as [Hdl Hdu].
  set (D := Z.pos (digits2_pos mx)) in *.
  assert (Hm1 : 2 ^ 52 <= Z.pos mx / 2 ^ n < 2 ^ 53).
  { split.
    - apply Z.div_le_lower_bound; [lia|].
      rewrite <- Z.pow_add_r by lia. by replace (n + 52) with (D - 1) by lia.
    - apply Z.div_lt_upper_bound; [lia|].
      rewrite <- Z.pow_add_r by lia. by replace (n + 53) with D by lia. }
  unfold binary_round_aux, shr_fexp.
  change (Zdigits2 (Z.pos mx)) with D.
  rewrite fexp_normal by lia.
  replace (D + ex - 53 - ex) with n by lia.
  destruct (shr_m_shift (shr_record_of_loc (Z.pos mx) loc_Exact) ex n) as [Hm He];
    [simpl; lia|lia|].
  destruct (shr (shr_record_of_loc (Z.pos mx) loc_Exact) ex n) as [mrs' e'].
  cbn [fst snd] in Hm, He. simpl in Hm. subst e'.
  pose proof (round_nearest_even_range (shr_m mrs') (loc_of_shr_record mrs')) as Hr.
  set (m2 := round_nearest_even (shr_m mrs') (loc_of_shr_record mrs')) in *.
  rewrite Hm in Hr.
  exists m2. split; [done|].
  destruct m2 as [|p2|p2] eqn:Em2; [lia| |lia].
  destruct (Z.eq_dec (Z.pos p2) (2 ^ 53)) as [Etop|Hlt].
  - assert (Ep : p2 = 9007199254740992%positive)
      by (apply Pos2Z.inj; rewrite Etop; reflexivity).
    subst p2. change (Zdigits2 9007199254740992) with 54.
    rewrite fexp_normal by (simpl; lia).
    match goal with |- context [shr _ _ ?k] => replace k with 1 by (simpl; lia) end.
    cbn [shr shr_record_of_loc SpecFloat.iter_pos shr_1 shr_m].
    destruct (Z.leb_spec (ex + n + 1) (1024 - 53)); [|lia].
    cbn [int_of_binary64]. f_equal. f_equal.
    destruct (Z.leb_spec 0 (ex + n + 1)).
    + replace (ex + n + 1) with 0 by lia. replace (- (ex + n)) with 1 by lia. done.
    + replace (- (ex + n)) with (1 + - (ex + n + 1)) by lia.
      rewrite Z.pow_add_r by lia. change (2 ^ 1) with 2.
      change 9007199254740992 with (2 * 4503599627370496).
      rewrite Z.div_mul_cancel_l by lia. done.
  - assert (Hd : Z.pos (digits2_pos p2) = 53) by (apply Zdigits2_unique; lia).
    cbn [Zdigits2]. rewrite Hd.
    rewrite fexp_normal by lia.
    replace (53 + (ex + n) - 53 - (ex + n)) with 0 by lia.
    cbn [shr shr_record_of_loc shr_m].
    destruct (Z.leb_spec (ex + n) (1024 - 53)); [|lia].
    cbn [int_of_binary64].
    destruct (Z.leb_spec 0 (ex + n)); [lia|]. done.
Qed.

Lemma Pos_iter_xO (q p : positive) : Z.pos (Pos.iter xO p q) = Z.pos p * 2 ^ Z.pos q.
Proof.
  induction q as [|q IH] using Pos.peano_ind.
  - simpl. lia.
  - rewrite Pos.iter_succ, Pos2Z.inj_succ, Z.pow_succ_r by lia.
    rewrite Pos2Z.inj_xO, IH. lia.
Qed.

(** [float(n)] for an integer of at most 52 binary digits: the digits are
    kept and moved up to fill the 53-bit significand. *)
Lemma binary_round_small (s : bool) (p : positive) :
  Z.pos (digits2_pos p) <= 52 ->
  exists mz : positive,
    Z.pos mz = Z.pos p * 2 ^ (53 - Z.pos (digits2_pos p)) /\
    binary_round 53 1024 s p 0 = S754_finite s mz (Z.pos (digits2_pos p) - 53).
Proof.
  intros Hd. pose proof (Zdigits2_bounds p) as [Hl Hu].
  set (D := Z.pos (digits2_pos p)) in *.
  assert (HD : 0 < D) by (unfold D; lia).
  unfold binary_round. fold D. rewrite fexp_normal by lia.
  unfold shl_align.
  destruct (D + 0 - 53 - 0) as [|q|q] eqn:Eq; [lia|lia|].
  assert (Hq : Z.pos q = 53 - D) by lia.
  exists (Pos.iter xO p q). split; [by rewrite Pos_iter_xO, Hq|].
  assert (Hmz : Z.pos (digits2_pos (Pos.iter xO p q)) = 53).
  { apply Zdigits2_unique. rewrite Pos_iter_xO, Hq. change (53 - 1) with 52.
    split.
    - replace 52 with (D - 1 + (53 - D)) by lia. rewrite Z.pow_add_r by lia.
      apply Z.mul_le_mono_nonneg_r; lia.
    - replace 53 with (D + (53 - D)) at 2 by lia. rewrite Z.pow_add_r by lia.
      apply Z.mul_lt_mono_pos_r; lia. }
  cbv beta iota zeta.
  unfold binary_round_aux, shr_fexp. cbn [Zdigits2]. rewrite Hmz.
  rewrite fexp_normal by lia.
  replace (53 + (D + 0 - 53) - 53 - (D + 0 - 53)) with 0 by lia.
  cbn [shr shr_record_of_loc shr_m loc_of_shr_record round_nearest_even Zdigits2].
  rewrite Hmz, fexp_normal by lia.
  replace (53 + (D + 0 - 53) - 53 - (D + 0 - 53)) with 0 by lia.
  cbn [shr shr_record_of_loc shr_m].
  destruct (Z.leb_spec (D + 0 - 53) (1024 - 53)); [|lia].
  f_equal; lia.
Qed.

Lemma enemy_damage_positive (s : bool) (p : positive) :
  Z.pos p < 2 ^ 50 ->
  int_of_binary64 (SFmul 53 1024 (binary_round 53 1024 s p 0) binary64_0_40)
    = Some (cond_Zopp s (Z.pos p * 40 / 100)).
Proof.
  intros Ha. pose proof (Zdigits2_bounds p) as [Hl Hu].
  assert (HD : Z.pos (digits2_pos p) <= 50).
  { destruct (Z.leb_spec (Z.pos (digits2_pos p)) 50); [done|]. exfalso.
    assert (2 ^ 50 <= 2 ^ (Z.pos (digits2_pos p) - 1)) by (apply Z.pow_le_mono_r; lia).
    lia. }
  destruct (binary_round_small s p ltac:(lia)) as (mz & Hmz & ->).
  set (D := Z.pos (digits2_pos p)) in *.
  assert (HD0 : 0 < D) by (unfold D; lia).
  set (T := 2 ^ (53 - D)) in *.
  assert (HT : 8 <= T).
  { change 8 with (2 ^ 3). apply Z.pow_le_mono_r; lia. }
  assert (HU : 2 ^ 52 <= Z.pos mz < 2 ^ 50 * T).
  { rewrite Hmz. split.
    - replace 52 with (D - 1 + (53 - D)) by lia. rewrite Z.pow_add_r by lia.
      apply Z.mul_le_mono_nonneg_r; lia.
    - apply Z.mul_lt_mono_pos_r; lia. }
  assert (HU53 : Z.pos mz < 2 ^ 53).
  { rewrite Hmz. unfold T. replace (2 ^ 53) with (2 ^ (D + (53 - D))) by (f_equal; lia).
    rewrite Z.pow_add_r by lia. apply Z.mul_lt_mono_pos_r; lia. }
  unfold binary64_0_40. cbn [SFmul]. rewrite xorb_false_r.
  set (P := (mz * 7205759403792794)%positive).
  assert (HP : Z.pos P = Z.pos mz * 7205759403792794) by (unfold P; lia).
  pose proof (Zdigits2_bounds P) as [HPl HPu].
  assert (HDP : 105 <= Z.pos (digits2_pos P) <= 106).
  { split.
    - destruct (Z.leb_spec 105 (Z.pos (digits2_pos P))); [done|]. exfalso.
      assert (2 ^ Z.pos (digits2_pos P) <= 2 ^ 104) by (apply Z.pow_le_mono_r; lia).
      change (2 ^ 52) with 4503599627370496 in *.
      change (2 ^ 104) with 20282409603651670423947251286016 in *. lia.
    - destruct (Z.leb_spec (Z.pos (digits2_pos P)) 106); [done|]. exfalso.
      assert (2 ^ 106 <= 2 ^ (Z.pos (digits2_pos P) - 1))
        by (apply Z.pow_le_mono_r; lia).
      change (2 ^ 53) with 9007199254740992 in *.
      change (2 ^ 106) with 81129638414606681695789005144064 in *. lia. }
  destruct (int_of_binary_round_aux s P (D - 53 + -54)) as (m2 & Hm2 & ->);
    [lia|lia|lia|].
  set (n := Z.pos (digits2_pos P) - 53) in *.
  set (k := - (D - 53 + -54 + n)).
  f_equal. f_equal.
  assert (HNK : 2 ^ n * 2 ^ k = 2 ^ 54 * T).
  { unfold T. rewrite <- !Z.pow_add_r by lia. f_equal. lia. }
  assert (HN : 0 < 2 ^ n <= 2 ^ 53).
  { split; [lia|]. apply Z.pow_le_mono_r; lia. }
  assert (HK : 0 < 2 ^ k) by (apply Z.pow_pos_nonneg; lia).
  set (N := 2 ^ n) in *. set (K := 2 ^ k) in *.
  pose proof (Z.mul_div_le (Z.pos P) N ltac:(lia)) as Hfl.
  pose proof (Z.mul_succ_div_gt (Z.pos P) N ltac:(lia)) as Hfu.
  set (m1 := Z.pos P / N) in *.
  pose proof (Z.mul_div_le (Z.pos p * 40) 100 ltac:(lia)) as Hql.
  pose proof (Z.mul_succ_div_gt (Z.pos p * 40) 100 ltac:(lia)) as Hqu.
  set (q := Z.pos p * 40 / 100) in *.
  assert (HV1 : 5 * (q * T) <= 2 * Z.pos mz).
  { rewrite Hmz. replace (5 * (q * T)) with (5 * q * T) by ring.
    replace (2 * (Z.pos p * T)) with (2 * Z.pos p * T) by ring.
    apply Z.mul_le_mono_nonneg_r; lia. }
  assert (HV2 : 2 * Z.pos mz + T <= 5 * (q * T) + 5 * T).
  { rewrite Hmz. replace (2 * (Z.pos p * T) + T) with ((2 * Z.pos p + 1) * T) by ring.
    replace (5 * (q * T) + 5 * T) with ((5 * q + 5) * T) by ring.
    apply Z.mul_le_mono_nonneg_r; lia. }
  set (V := q * T) in *.
  assert (Hq0 : 0 <= q) by (apply Z.div_pos; lia).
  symmetry. apply Z.div_unique with (r := m2 - q * K).
  2: lia.
  left. split.
  - assert (q * K <= m1); [|lia].
    apply Z.div_le_lower_bound; [lia|].
    replace (N * (q * K)) with (q * (N * K)) by ring. rewrite HNK.
    replace (q * (2 ^ 54 * T)) with (2 ^ 54 * V) by (unfold V; ring).
    change (2 ^ 54) with 18014398509481984. rewrite HP. lia.
  - assert (m1 + 1 < (q + 1) * K); [|lia].
    assert (N * (m1 + 1) < N * ((q + 1) * K)); [|nia].
    replace (N * ((q + 1) * K)) with ((q + 1) * (N * K)) by ring. rewrite HNK.
    replace ((q + 1) * (2 ^ 54 * T)) with (2 ^ 54 * V + 2 ^ 54 * T) by (unfold V; ring).
    change (2 ^ 54) with 18014398509481984.
    change (2 ^ 53) with 9007199254740992 in *.
    change (2 ^ 50) with 1125899906842624 in *.
    change (2 ^ 52) with 4503599627370496 in *.
    rewrite HP in Hfl. lia.
Qed.

Lemma binary64_of_int_small (s : bool) (p : positive) :
  Z.pos p < 2 ^ 50 ->
  binary64_of_int (if s then Z.neg p else Z.pos p) = Some (binary_round 53 1024 s p 0).
Proof.
  intros Ha. pose proof (Zdigits2_bounds p) as [Hl Hu].
  assert (HD : Z.pos (digits2_pos p) <= 50).
  { destruct (Z.leb_spec (Z.pos (digits2_pos p)) 50); [done|]. exfalso.
    assert (2 ^ 50 <= 2 ^ (Z.pos (digits2_pos p) - 1)) by (apply Z.pow_le_mono_r; lia).
    lia. }
  destruct (binary_round_small s p ltac:(lia)) as (mz & _ & E).
  unfold binary64_of_int. destruct s; cbn [binary_normalize]; by rewrite E.
Qed.

(** Below [2^50] in magnitude the binary64 product has the integer part of
    the exact one: the damage is [max(4, floor(attack * 0.40))]. *)
Lemma enemy_damage_exact (attack : Z) :
  - 2 ^ 50 < attack < 2 ^ 50 ->
  enemy_damage attack = Some (Z.max 4 (attack * 40 / 100)).
Proof.
  intros Ha. unfold enemy_damage. destruct attack as [|p|p].
  - vm_compute. reflexivity.
  - rewrite (binary64_of_int_small false p) by lia. cbn [mbind option_bind].
    rewrite enemy_damage_positive by lia. reflexivity.
  - rewrite (binary64_of_int_small true p) by lia. cbn [mbind option_bind].
    rewrite enemy_damage_positive by lia. cbn [mbind option_bind cond_Zopp].
    f_equal.
    assert (0 <= Z.pos p * 40 / 100) by (apply Z.div_pos; lia).
    assert (Z.neg p * 40 / 100 < 0) by (apply Z.div_lt_upper_bound; lia).
    lia.
Qed.

(** Further up the rounding of the product shows: at [2^53] the code deals
    one unit more than two fifths of the attack, rounded down. *)
Lemma enemy_damage_inexact :
  enemy_damage (2 ^ 53) = Some 3602879701896397 /\
  Z.max 4 (2 ^ 53 * 40 / 100) = 3602879701896396.
Proof. split; vm_compute; reflexivity. Qed.

(** From [2^1024] on the attack has no double. *)
Lemma enemy_damage_overflow : enemy_damage (2 ^ 1024) = None.
Proof. vm_compute. reflexivity. Qed.

Lemma enemy_damage_min (attack damage : Z) :
  enemy_damage attack = Some damage -> 4 <= damage.
Proof.
  unfold enemy_damage. intros H.
  destruct (binary64_of_int attack) as [f|]; [|done]. cbn [mbind option_bind] in H.
  destruct (int_of_binary64 _) as [n|]; [|done]. cbn [mbind option_bind] in H.
  inversion H. lia.
Qed.

(** *** One call *)

Lemma delete_insert_same {A : Type} (l : list A) (i : nat) (x : A) :
  delete i (<[i:=x]> l) = delete i l.
Proof.
  rewrite !delete_take_drop.
  rewrite take_insert_ge by lia. by rewrite drop_insert_lt by lia.
Qed.

Lemma choice_elem {A} (x : A) xs g : (choice x xs g).1 ∈ x :: xs.
Proof.
  unfold choice. cbn [draw fst].
  apply list_elem_of_In, nth_In. cbn [length].
  apply Nat.mod_upper_bound. lia.
Qed.

(** [attack_session] once the target is found: the player's turn yields
    [player1], [events1] and the roster [enemies1]; the enemy turn follows
    when the roster is not empty, and stops short of the player's health
    when the counter-damage overflows. *)
Lemma attack_session_normal (session : Session) (g : rng) (enemy_id attack : Z)
    (combat : Combat) (target_index : nat) (target : Enemy) :
  s_combat session = Some combat ->
  list_find (fun e => e_id e = enemy_id) (c_enemies combat)
    = Some (target_index, target) ->
  let hit := set_enemy_health target (Z.max 0 (e_health target - attack)) in
  let killed := e_health hit <=? 0 in
  let paid := killed && (0 <? e_credit_reward target) in
  let player1 :=
    if paid then
      set_credits (s_player session) (p_credits (s_player session) + e_credit_reward target)
    else s_player session in
  let events1 :=
    ("You strike " +:+ e_name target +:+ " for " +:+ pretty attack +:+ " damage.")
      :: (if killed then
            (e_name target +:+ " is defeated!")
              :: (if paid then
                    ["You loot " +:+ pretty (e_credit_reward target)
                       +:+ " credits from " +:+ e_name target +:+ "."]
                  else [])
          else []) in
  let enemies1 :=
    if killed then delete target_index (<[target_index := hit]> (c_enemies combat))
    else <[target_index := hit]> (c_enemies combat) in
  attack_session session g enemy_id attack =
    match enemies1 with
    | [] =>
      (set_combat (set_player session player1) None, g,
       Return (mkAttackReply events1 true None [] (Some (s_unclaimed_loot session))
                 player1))
    | first :: others =>
      let striker := (choice first others g).1 in
      match enemy_damage attack with
      | None =>
        (set_player (set_combat session (Some (mkCombat enemies1))) player1,
         (choice first others g).2, OverflowError)
      | Some edmg =>
        let player2 := set_health player1 (Z.max 0 (p_health player1 - edmg)) in
        let dead := p_health player2 <=? 0 in
        (set_player (set_combat session (Some (mkCombat enemies1))) player2,
         (choice first others g).2,
         Return (mkAttackReply
                   ((events1 ++ [e_name striker +:+ " hits you for "
                                   +:+ pretty edmg +:+ " damage."])
                      ++ (if dead then ["You were defeated!"] else []))
                   false (if dead then Some true else None) enemies1
                   (if dead then None else Some []) player2))
      end
    end.
Proof.
  intros Ec Ef hit killed paid player1 events1 enemies1.
  unfold attack_session. rewrite Ec, Ef. cbv zeta.
  fold hit. fold killed.
  subst paid player1 events1 enemies1.
  destruct killed; simpl andb.
  - destruct (0 <? e_credit_reward hit) eqn:Er;
      change (e_credit_reward hit) with (e_credit_reward target) in Er;
      rewrite Er; cbv beta iota;
      (destruct (delete target_index (<[target_index:=hit]> (c_enemies combat)))
         as [|first others]; [reflexivity|]);
      destruct (choice first others g) as [striker g1]; cbn [fst snd];
      (destruct (enemy_damage attack) as [edmg|]; [|reflexivity]);
      destruct (_ <=? 0); try reflexivity; by rewrite app_nil_r.
  - cbv beta iota.
    destruct (<[target_index:=hit]> (c_enemies combat)) as [|first others];
      [reflexivity|].
    destruct (choice first others g) as [striker g1]; cbn [fst snd];
      (destruct (enemy_damage attack) as [edmg|]; [|reflexivity]);
      destruct (_ <=? 0); try reflexivity; by rewrite app_nil_r.
Qed.

Lemma attack_session_raises (session : Session) (g : rng) (enemy_id attack : Z)
    (session' : Session) (g' : rng) (reply : attack_reply) :
  attack_session session g enemy_id attack = (session', g', Return reply) ->
  exists (combat : Combat) (target_index : nat) (target : Enemy),
    s_combat session = Some combat /\
    list_find (fun e => e_id e = enemy_id) (c_enemies combat)
      = Some (target_index, target).
Proof.
  unfold attack_session. intros He.
  destruct (s_combat session) as [combat|]; [|done].
  destruct (list_find _ _) as [[target_index target]|] eqn:Ef; [|done].
  by exists combat, target_index, target.
Qed.

(** The roster the code leaves is the one the specification describes. *)
Lemma resolve_attack_roster_find (enemies : list Enemy) (enemy_id attack : Z) :
  resolve_attack_roster enemies enemy_id attack
    = match list_find (fun e => e_id e = enemy_id) enemies with
      | None => enemies
      | Some (target_index, target) =>
        let hit := set_enemy_health target (Z.max 0 (e_health target - attack)) in
        if e_health hit <=? 0 then delete target_index (<[target_index := hit]> enemies)
        else <[target_index := hit]> enemies
      end.
Proof.
  induction enemies as [|e rest IH]; [done|].
  cbn [resolve_attack_roster list_find].
  case_bool_decide as E; [rewrite decide_True by done|rewrite decide_False by done].
  - cbn. destruct (_ <=? 0); reflexivity.
  - rewrite IH.
    destruct (list_find (fun e => e_id e = enemy_id) rest) as [[i t]|]; [|done].
    cbn. destruct (_ <=? 0); reflexivity.
Qed.

Lemma list_find_id (enemies : list Enemy) (enemy_id : Z) :
  enemy_id ∈ e_id <$> enemies ->
  exists (target_index : nat) (target : Enemy),
    list_find (fun e => e_id e = enemy_id) enemies = Some (target_index, target).
Proof.
  intros Hin. apply list_elem_of_fmap in Hin as (e & -> & Hin).
  destruct (list_find_elem_of (fun e' => e_id e' = e_id e) enemies e Hin eq_refl)
    as [[target_index target] Ef].
  by exists target_index, target.
Qed.

(** C3, as amended: in every call that strikes an enemy of the roster and
    leaves at least one enemy, and whose attack has a binary64 value,
    [attack_enemy] answers with exactly one counter-attack: one "hits you"
    event of an enemy of the remaining roster follows the events of the
    player's own turn, and the player's health is the health before the
    call less the damage, floored at 0. The damage is
    [max(4, int(attack * 0.40))] with the product formed in binary64; it
    depends on the [attack] argument alone, not on an enemy's attack stat,
    is at least 4 and, for an attack below [2^50] in magnitude, is exactly
    [max(4, floor(attack * 0.40))]. *)
Theorem attack_enemy_counter_attack (sessions : gmap string Session) (g : rng)
    (session_id : string) (enemy_id attack : Z) (session : Session)
    (combat : Combat) (damage : Z) :
  sessions !! session_id = Some session ->
  s_combat session = Some combat ->
  enemy_id ∈ e_id <$> c_enemies combat ->
  resolve_attack_roster (c_enemies combat) enemy_id attack <> [] ->
  enemy_damage attack = Some damage ->
  exists (session' : Session) (g' : rng) (reply : attack_reply)
         (target striker : Enemy),
    attack_enemy sessions g session_id enemy_id attack
      = (<[session_id := session']> sessions, g', Return reply) /\
    s_player session' = a_player reply /\
    s_combat session' = Some (mkCombat (a_enemies reply)) /\
    a_enemies reply = resolve_attack_roster (c_enemies combat) enemy_id attack /\
    target ∈ c_enemies combat /\
    e_id target = enemy_id /\
    striker ∈ a_enemies reply /\
    4 <= damage /\
    (- 2 ^ 50 < attack < 2 ^ 50 -> damage = Z.max 4 (attack * 40 / 100)) /\
    p_health (a_player reply) = Z.max 0 (p_health (s_player session) - damage) /\
    a_events reply
      = (("You strike " +:+ e_name target +:+ " for " +:+ pretty attack +:+ " damage.")
           :: (if e_health target - attack <=? 0 then
                 (e_name target +:+ " is defeated!")
                   :: (if 0 <? e_credit_reward target then
                         ["You loot " +:+ pretty (e_credit_reward target)
                            +:+ " credits from " +:+ e_name target +:+ "."]
                       else [])
               else []))
        ++ (e_name striker +:+ " hits you for " +:+ pretty damage +:+ " damage.")
        :: (if p_health (a_player reply) <=? 0 then ["You were defeated!"] else []).
Proof.
  intros Hs Ec Hid Hleft Hd.
  destruct (list_find_id _ _ Hid) as (target_index & target & Ef).
  unfold attack_enemy. rewrite Hs.
  rewrite resolve_attack_roster_find, Ef in Hleft |- *. cbv zeta in Hleft |- *.
  rewrite (attack_session_normal _ _ _ _ _ _ _ Ec Ef). cbv zeta. rewrite Hd.
  apply list_find_Some in Ef as (Hl & Ht & _).
  assert (Hk : (e_health (set_enemy_health target (0 `max` (e_health target - attack))) <=? 0)
               = (e_health target - attack <=? 0)).
  { simpl. destruct (Z.leb_spec (e_health target - attack) 0);
      destruct (Z.leb_spec (0 `max` (e_health target - attack)) 0); lia. }
  rewrite Hk in Hleft |- *.
  set (enemies1 := if e_health target - attack <=? 0 then _ else _) in *.
  destruct enemies1 as [|first others] eqn:Ee; [done|].
  eexists _, _, _, target, (choice first others g).1.
  split; [reflexivity|]. cbn [a_enemies a_player a_events].
  split; [reflexivity|]. split; [reflexivity|]. split; [reflexivity|].
  split; [by eapply list_elem_of_lookup_2|]. split; [done|].
  split; [apply choice_elem|].
  split; [by eapply enemy_damage_min|].
  split.
  { intros Ha. rewrite enemy_damage_exact in Hd by done. by inversion Hd. }
  split.
  - cbn [p_health set_health].
    destruct (_ && _); reflexivity.
  - rewrite <- app_assoc. f_equal.
    destruct (e_health target - attack <=? 0); reflexivity.
Qed.

Lemma attack_enemy_counter_attack_witness :
  exists (session' : Session) (g' : rng) (reply : attack_reply),
    attack_enemy {[ "s1" := two_raiders ]} fixed_rng "s1" 0 50
      = (<[ "s1" := session' ]> {[ "s1" := two_raiders ]}, g', Return reply) /\
    a_enemies reply = [raider 1 30] /\
    p_health (a_player reply) = Z.max 0 (100 - 20).
Proof.
  destruct (attack_enemy_counter_attack {[ "s1" := two_raiders ]} fixed_rng "s1" 0 50
              two_raiders (mkCombat [raider 0 50; raider 1 30]) 20)
    as (session' & g' & reply & target & striker & H1 & _ & _ & H4 & _ & _ & _ & _ & _
        & H10 & _).
  - reflexivity.
  - reflexivity.
  - apply (bool_decide_unpack _). vm_compute. exact I.
  - vm_compute. discriminate.
  - vm_compute. reflexivity.
  - exists session', g', reply. split; [exact H1|]. split; [exact H4 | exact H10].
Defined.

(** C3, as worded, fails once the product is rounded: on [two_raiders] an
    attack of [2^53] removes raider 0 and raider 1 hits back for
    3602879701896397, one more than [floor(2^53 * 0.40)]. (From [2^1024]
    on the call does not answer at all.) *)
Lemma counter_attack_as_stated_fails : ~ counter_attack_as_stated.
Proof.
  intros H.
  destruct (H {[ "s1" := two_raiders ]} fixed_rng "s1" 0 (2 ^ 53) two_raiders
              (mkCombat [raider 0 50; raider 1 30]))
    as (sessions' & g' & reply & striker & He & Hin & Hev & _).
  - reflexivity.
  - reflexivity.
  - apply (bool_decide_unpack _). vm_compute. exact I.
  - vm_compute. discriminate.
  - apply (f_equal snd) in He. vm_compute in He. inversion He; subst reply. clear He.
    cbn [a_enemies a_events] in Hin, Hev.
    apply list_elem_of_singleton in Hin. subst striker.
    apply (bool_decide_pack _) in Hev. vm_compute in Hev. exact Hev.
Qed.


(** ** Purchases that go through *)

(** X1: when the item has a price and the player's credits cover it,
    [shop_buy] answers "Purchased <item> for <cost> credits!", takes exactly
    the price off the credits and appends one new stack [{name, qty: 1}] at
    the end of the inventory, without stacking it onto a held stack and
    without looking at the slot limit; it sets the plasma durability to 2
    when the item is the Plasma Blaster and keeps it otherwise; health,
    maximal health, level and unlocked locations are kept. *)
Theorem shop_buy_success (sessions : gmap string Session) (req : ShopBuyRequest)
    (session : Session) (cost : Z) :
  sessions !! sb_session_id req = Some session ->
  PRICES !! sb_item_name req = Some cost ->
  cost <= p_credits (s_player session) ->
  exists player' : Player,
    shop_buy sessions req
      = (<[sb_session_id req := set_player session player']> sessions,
         Return (mkReply true
                   ("Purchased " +:+ sb_item_name req +:+ " for " +:+ pretty cost
                      +:+ " credits!")
                   None (Some player'))) /\
    p_credits player' = p_credits (s_player session) - cost /\
    p_inventory player'
      = p_inventory (s_player session) ++ [with_qty (sb_item_name req) 1] /\
    p_plasma_durability player'
      = (if decide (sb_item_name req = "Plasma Blaster") then 2
         else p_plasma_durability (s_player session)) /\
    p_health player' = p_health (s_player session) /\
    p_max_health player' = p_max_health (s_player session) /\
    p_level player' = p_level (s_player session) /\
    p_unlocked_locations player' = p_unlocked_locations (s_player session).
Proof.
  intros Hs Hcost Hle. unfold shop_buy. rewrite Hs, Hcost.
  destruct (Z.ltb_spec (p_credits (s_player session)) cost); [lia|].
  eexists. split; [reflexivity|].
  destruct (String.eqb_spec (sb_item_name req) "Plasma Blaster") as [E|E];
    destruct (decide (sb_item_name req = "Plasma Blaster")); done.
Qed.

Lemma shop_buy_success_witness :
  exists player' : Player,
    shop_buy {[ "s1" := scrap_holder ]} (mkShopBuyRequest "s1" "Charge Cell")
      = (<[ "s1" := set_player scrap_holder player' ]> {[ "s1" := scrap_holder ]},
         Return (mkReply true "Purchased Charge Cell for 5 credits!" None
                   (Some player'))) /\
    p_credits player' = 5.
Proof.
  destruct (shop_buy_success {[ "s1" := scrap_holder ]}
              (mkShopBuyRequest "s1" "Charge Cell") scrap_holder 5)
    as (player' & H1 & H2 & _).
  - reflexivity.
  - reflexivity.
  - vm_compute. discriminate.
  - exists player'. split; [exact H1 | exact H2].
Defined.

(** ** Unlocking locations *)

(** X2: for an existing session, [unlock_location] answers "Unknown locked
    location." for a location without a cost and "Not enough credits." when
    the credits are below the cost, and returns the store as it was in both
    cases; otherwise it takes the cost off the credits, appends the location
    to the player's unlocked locations (starting the list when the player
    has none) and keeps inventory, health and plasma durability. *)
Theorem unlock_location_spec (sessions : gmap string Session)
    (session_id location_id : string) (session : Session) :
  sessions !! session_id = Some session ->
  (unlock_costs !! location_id = None ->
   unlock_location sessions session_id location_id
     = (sessions, Return (mkUnlockReply false "Unknown locked location." None))) /\
  (forall cost : Z,
     unlock_costs !! location_id = Some cost ->
     p_credits (s_player session) < cost ->
     unlock_location sessions session_id location_id
       = (sessions, Return (mkUnlockReply false "Not enough credits." None))) /\
  (forall cost : Z,
     unlock_costs !! location_id = Some cost ->
     cost <= p_credits (s_player session) ->
     exists player' : Player,
       unlock_location sessions session_id location_id
         = (<[session_id := set_player session player']> sessions,
            Return (mkUnlockReply true ("Unlocked " +:+ location_id +:+ "!")
                      (Some player'))) /\
       p_credits player' = p_credits (s_player session) - cost /\
       p_unlocked_locations player'
         = Some (default [] (p_unlocked_locations (s_player session))
                   ++ [location_id]) /\
       p_inventory player' = p_inventory (s_player session) /\
       p_health player' = p_health (s_player session) /\
       p_plasma_durability player' = p_plasma_durability (s_player session)).
Proof.
  intros Hs. unfold unlock_location. rewrite Hs. split; [|split].
  - by intros ->.
  - intros cost -> Hlt.
    destruct (Z.ltb_spec (p_credits (s_player session)) cost); [done|lia].
  - intros cost -> Hle.
    destruct (Z.ltb_spec (p_credits (s_player session)) cost); [lia|].
    eexists. split; [reflexivity|]. done.
Qed.

Lemma unlock_location_spec_witness :
  unlock_location {[ "s1" := new_session ]} "s1" "moon"
    = ({[ "s1" := new_session ]},
       Return (mkUnlockReply false "Unknown locked location." None)) /\
  unlock_location {[ "s1" := new_session ]} "s1" "delta_base"
    = ({[ "s1" := new_session ]},
       Return (mkUnlockReply false "Not enough credits." None)) /\
  exists player' : Player,
    unlock_location {[ "s1" := set_player new_session (set_credits new_player 60) ]}
        "s1" "delta_base"
      = (<[ "s1" := set_player (set_player new_session (set_credits new_player 60))
                      player' ]>
           {[ "s1" := set_player new_session (set_credits new_player 60) ]},
         Return (mkUnlockReply true "Unlocked delta_base!" (Some player'))) /\
    p_credits player' = 10 /\
    p_unlocked_locations player' = Some ["delta_base"].
Proof.
  split; [|split].
  - refine (proj1 (unlock_location_spec {[ "s1" := new_session ]} "s1" "moon"
                     new_session _) _); reflexivity.
  - refine (proj1 (proj2 (unlock_location_spec {[ "s1" := new_session ]} "s1"
                            "delta_base" new_session _)) 50 _ _); reflexivity.
  - destruct (proj2 (proj2 (unlock_location_spec
                {[ "s1" := set_player new_session (set_credits new_player 60) ]}
                "s1" "delta_base"
                (set_player new_session (set_credits new_player 60))
                (lookup_singleton_eq _ _))) 50)
      as (player' & H1 & H2 & H3 & _).
    + reflexivity.
    + vm_compute. discriminate.
    + exists player'. split; [exact H1|]. split; [exact H2 | exact H3].
Defined.

(** X3: unlocking is not idempotent: [unlock_location] never looks at the
    locations already unlocked, so a player who can pay twice and unlocks
    the same location twice is charged twice and has the location listed
    twice. *)
Theorem unlock_location_twice (sessions : gmap string Session)
    (session_id location_id : string) (session : Session) (cost : Z) :
  sessions !! session_id = Some session ->
  unlock_costs !! location_id = Some cost ->
  2 * cost <= p_credits (s_player session) ->
  0 <= cost ->
  exists session'' : Session,
    (unlock_location (unlock_location sessions session_id location_id).1
       session_id location_id).1 !! session_id = Some session'' /\
    p_credits (s_player session'') = p_credits (s_player session) - 2 * cost /\
    p_unlocked_locations (s_player session'')
      = Some (default [] (p_unlocked_locations (s_player session))
                ++ [location_id; location_id]).
Proof.
  intros Hs Hc Hle Hpos.
  unfold unlock_location at 2. rewrite Hs, Hc.
  destruct (Z.ltb_spec (p_credits (s_player session)) cost); [lia|].
  cbn [fst]. unfold unlock_location. rewrite lookup_insert_eq, Hc.
  cbn [s_player set_player p_credits set_unlocked_locations set_credits].
  destruct (Z.ltb_spec (p_credits (s_player session) - cost) cost); [lia|].
  cbn [fst]. rewrite lookup_insert_eq. eexists. split; [reflexivity|].
  simpl. split; [lia|]. by rewrite <- app_assoc.
Qed.

Lemma unlock_location_twice_witness :
  exists session'' : Session,
    (unlock_location
       (unlock_location
          {[ "s1" := set_player new_session (set_credits new_player 120) ]}
          "s1" "delta_base").1 "s1" "delta_base").1 !! "s1" = Some session'' /\
    p_credits (s_player session'') = 20 /\
    p_unlocked_locations (s_player session'') = Some ["delta_base"; "delta_base"].
Proof.
  destruct (unlock_location_twice
              {[ "s1" := set_player new_session (set_credits new_player 120) ]}
              "s1" "delta_base"
              (set_player new_session (set_credits new_player 120)) 50)
    as (session'' & H1 & H2 & H3).
  - reflexivity.
  - reflexivity.
  - vm_compute. discriminate.
  - lia.
  - exists session''. split; [exact H1|]. split; [exact H2 | exact H3].
Defined.

(** ** Reading the state *)

Lemma stack_qty_normalize (i : item) : stack_qty (normalize_item i) = stack_qty i.
Proof.
  unfold stack_qty, get_qty, normalize_item.
  destruct (item_qty i) eqn:Eq, (item_count i) eqn:Ec; simpl;
    rewrite ?Eq, ?Ec; reflexivity.
Qed.

Lemma normalize_item_idemp (i : item) :
  normalize_item (normalize_item i) = normalize_item i.
Proof.
  unfold normalize_item. destruct (item_qty i) eqn:Eq, (item_count i) eqn:Ec;
    simpl; rewrite ?Eq, ?Ec; reflexivity.
Qed.

(** X4: reading the state writes the store: for an existing session
    [get_game_state] changes the inventory item by item and nothing else of
    the session: an item keeps its name and its count, keeps its qty when
    it has one, and gets a qty equal to its count when it has none. The
    quantities the other routes read are unchanged, afterwards every item
    with a count has a qty, and a second read returns the same reply and
    store. *)
Theorem get_game_state_spec (sessions : gmap string Session) (session_id : string)
    (session : Session) :
  sessions !! session_id = Some session ->
  exists (sessions' : gmap string Session) (player' : Player),
    get_game_state sessions session_id
      = (sessions',
         Return (mkStateReply player' (s_node session) (s_combat session)
                   (s_unclaimed_loot session))) /\
    sessions' = <[session_id := set_player session player']> sessions /\
    player' = set_inventory (s_player session) (p_inventory player') /\
    Forall2 (fun i i' =>
               item_name i' = item_name i /\
               item_count i' = item_count i /\
               item_qty i' = match item_qty i with
                             | Some qty => Some qty
                             | None => item_count i
                             end)
      (p_inventory (s_player session)) (p_inventory player') /\
    item_name <$> p_inventory player' = item_name <$> p_inventory (s_player session) /\
    stack_qty <$> p_inventory player' = stack_qty <$> p_inventory (s_player session) /\
    Forall (fun i => item_count i <> None -> item_qty i <> None) (p_inventory player') /\
    get_game_state sessions' session_id
      = (sessions',
         Return (mkStateReply player' (s_node session) (s_combat session)
                   (s_unclaimed_loot session))).
Proof.
  intros Hs. unfold get_game_state at 1. rewrite Hs.
  eexists _, _. split; [reflexivity|]. split; [reflexivity|].
  split; [reflexivity|]. cbn [p_inventory set_inventory].
  split; [|split; [|split; [|split]]].
  - apply Forall2_fmap_r, Forall_Forall2_diag, Forall_forall. intros i _.
    simpl. unfold normalize_item.
    destruct (item_qty i) eqn:Eq, (item_count i) eqn:Ec; simpl; rewrite ?Eq, ?Ec; done.
  - rewrite <- list_fmap_compose. apply list_fmap_ext. intros _ i _. simpl.
    unfold normalize_item. by destruct (item_qty i), (item_count i).
  - rewrite <- list_fmap_compose. apply list_fmap_ext. intros _ i _.
    apply stack_qty_normalize.
  - apply Forall_fmap, Forall_forall. intros i _. simpl.
    unfold normalize_item. destruct (item_qty i) eqn:Eq, (item_count i) eqn:Ec;
      simpl; rewrite ?Eq, ?Ec; congruence.
  - unfold get_game_state. rewrite lookup_insert_eq.
    cbn [s_player set_player p_inventory set_inventory s_node s_combat
         s_unclaimed_loot].
    rewrite <- list_fmap_compose.
    rewrite (list_fmap_ext (normalize_item ∘ normalize_item) normalize_item
               (p_inventory (s_player session)))
      by (intros _ i _; apply normalize_item_idemp).
    by rewrite insert_insert_eq.
Qed.

Lemma get_game_state_spec_witness :
  exists (sessions' : gmap string Session) (player' : Player),
    get_game_state {[ "s1" := legacy_pack ]} "s1"
      = (sessions', Return (mkStateReply player' terra None [])) /\
    stack_qty <$> p_inventory player' = [3; 1] /\
    Forall (fun i => item_count i <> None -> item_qty i <> None) (p_inventory player') /\
    get_game_state sessions' "s1"
      = (sessions', Return (mkStateReply player' terra None [])).
Proof.
  destruct (get_game_state_spec {[ "s1" := legacy_pack ]} "s1" legacy_pack)
    as (sessions' & player' & H1 & _ & _ & _ & _ & H5 & H6 & H7).
  - reflexivity.
  - exists sessions', player'.
    split; [exact H1|]. split; [exact H5|]. split; [exact H6 | exact H7].
Defined.

(** ** More on stacking *)

Lemma partial_stacks_cons_in name i inv :
  item_name i = name -> stack_qty i < SCRAP_STACK_SIZE ->
  partial_stacks name (i :: inv) = i :: partial_stacks name inv.
Proof. intros H1 H2. unfold partial_stacks. by rewrite filter_cons_True. Qed.

Lemma partial_stacks_cons_out name i inv :
  (item_name i <> name \/ SCRAP_STACK_SIZE <= stack_qty i) ->
  partial_stacks name (i :: inv) = partial_stacks name inv.
Proof.
  intros H. unfold partial_stacks. rewrite filter_cons_False; [done|].
  intros [H1 H2]. destruct H; [done|lia].
Qed.

Lemma fill_partial_stacks_shape name (inventory : list item) :
  forall qty inventory' r,
  fill_partial_stacks inventory name qty = (inventory', r) ->
  item_name <$> inventory' = item_name <$> inventory /\
  (0 <= qty -> Forall wf_item inventory -> Forall wf_item inventory') /\
  match r with
  | Some qty' => partial_stacks name inventory' = [] /\ qty' <= qty
  | None =>
    (length (partial_stacks name inventory')
     <= length (partial_stacks name inventory))%nat
  end.
Proof.
  induction inventory as [|i rest IH]; intros qty inventory' r Hf; simpl in Hf.
  - inversion Hf; subst. repeat split; (done || lia).
  - destruct (String.eqb_spec (item_name i) name) as [En|En]; simpl in Hf.
    + destruct (Z.leb_spec SCRAP_STACK_SIZE (stack_qty i)) as [Hfull|Hpart].
      * destruct (fill_partial_stacks rest name qty) as [rest' r'] eqn:Er.
        inversion Hf; subst inventory' r'. clear Hf.
        destruct (IH _ _ _ Er) as (Hn & Hw & Hr).
        rewrite !partial_stacks_cons_out by (by right).
        split; [by rewrite !fmap_cons, Hn|]. split; [|done].
        intros Hq Hall. inversion Hall; subst. constructor; [done|]. by apply Hw.
      * set (add_now := Z.min (SCRAP_STACK_SIZE - stack_qty i) qty) in *.
        assert (Hnew : stack_qty (set_qty_count i (stack_qty i + add_now))
                       = stack_qty i + add_now).
        { rewrite (stack_qty_get (set_qty_count _ _)). reflexivity. }
        destruct (Z.leb_spec (qty - add_now) 0) as [Hdone|Hmore].
        -- inversion Hf; subst inventory' r. clear Hf.
           split; [done|]. split.
           { intros Hq Hall. inversion Hall as [|? ? Hi Hrest]; subst.
             constructor; [|done]. unfold wf_item in *. rewrite Hnew. lia. }
           rewrite (partial_stacks_cons_in name i) by done.
           destruct (decide (stack_qty i + add_now < SCRAP_STACK_SIZE)).
           ++ rewrite partial_stacks_cons_in by (by rewrite ?Hnew). done.
           ++ rewrite partial_stacks_cons_out by (right; rewrite Hnew; lia).
              simpl. lia.
        -- destruct (fill_partial_stacks rest name (qty - add_now)) as [rest' r'] eqn:Er.
           inversion Hf; subst inventory' r'. clear Hf.
           destruct (IH _ _ _ Er) as (Hn & Hw & Hr).
           split; [by rewrite !fmap_cons, Hn|]. split.
           { intros Hq Hall. inversion Hall as [|? ? Hi Hrest]; subst.
             constructor; [|apply Hw; [lia|done]].
             unfold wf_item in *. rewrite Hnew. lia. }
           rewrite (partial_stacks_cons_out name (set_qty_count _ _))
             by (right; rewrite Hnew; lia).
           destruct r as [qty'|].
           ++ destruct Hr. split; [done|lia].
           ++ rewrite (partial_stacks_cons_in name i) by done. simpl. lia.
    + destruct (fill_partial_stacks rest name qty) as [rest' r'] eqn:Er.
      inversion Hf; subst inventory' r'. clear Hf.
      destruct (IH _ _ _ Er) as (Hn & Hw & Hr).
      rewrite !partial_stacks_cons_out by (by left).
      split; [by rewrite !fmap_cons, Hn|]. split; [|done].
      intros Hq Hall. inversion Hall; subst. constructor; [done|]. by apply Hw.
Qed.

Lemma open_new_stacks_shape name (n : nat) : forall qty,
  (Z.to_nat qty <= n)%nat ->
  (length (partial_stacks name (open_new_stacks name qty)) <= 1)%nat /\
  (qty <= SCRAP_STACK_SIZE -> (length (open_new_stacks name qty) <= 1)%nat) /\
  (0 < qty -> open_new_stacks name qty <> []).
Proof.
  induction n as [|n IH]; intros qty Hn; rewrite open_new_stacks_unfold;
    destruct (Z.ltb_spec 0 qty) as [Hq|Hq]; try lia;
    try (simpl; repeat split; (lia || done)).
  destruct (IH (qty - Z.min SCRAP_STACK_SIZE qty)) as (IH1 & IH2 & IH3);
    [unfold SCRAP_STACK_SIZE; lia|].
  split; [|split; [|done]].
  - destruct (decide (qty < SCRAP_STACK_SIZE)) as [Hlt|Hge].
    + rewrite (open_new_stacks_unfold name (qty - _)).
      destruct (Z.ltb_spec 0 (qty - Z.min SCRAP_STACK_SIZE qty)); [lia|].
      etrans; [apply length_filter|]. done.
    + rewrite partial_stacks_cons_out; [done|]. right.
      rewrite stack_qty_get. unfold get_qty. simpl. lia.
  - intros Hle. rewrite (open_new_stacks_unfold name (qty - _)).
    destruct (Z.ltb_spec 0 (qty - Z.min SCRAP_STACK_SIZE qty)); [lia|]. done.
Qed.

(** X5: [add_stacked_item] never shortens the inventory and keeps the
    stacks it found in their places under their names; it appends new
    stacks only when no stack of that name it found has room left. *)
Theorem add_stacked_item_fill_first (inventory : list item) (name : string) (qty : Z) :
  (length inventory <= length (add_stacked_item inventory name qty))%nat /\
  item_name <$> take (length inventory) (add_stacked_item inventory name qty)
    = item_name <$> inventory /\
  ((length inventory < length (add_stacked_item inventory name qty))%nat ->
   partial_stacks name (take (length inventory) (add_stacked_item inventory name qty))
     = []).
Proof.
  unfold add_stacked_item.
  destruct (fill_partial_stacks inventory name qty) as [inventory' r] eqn:Ef.
  destruct (fill_partial_stacks_shape _ _ _ _ _ Ef) as (Hn & _ & Hr).
  assert (Hlen : length inventory' = length inventory).
  { by rewrite <- (length_fmap item_name inventory'), Hn, length_fmap. }
  destruct r as [qty'|].
  - rewrite length_app, <- Hlen, take_app_length. destruct Hr as [Hp _].
    split; [lia|]. split; done.
  - rewrite <- Hlen, firstn_all. split; [lia|]. split; [done|lia].
Qed.

Lemma add_stacked_item_fill_first_witness :
  partial_stacks "Scrap"
    (take 2 (add_stacked_item [with_qty "Scrap" 60; with_qty "Medpack" 1] "Scrap" 10))
    = [].
Proof.
  apply (proj2 (proj2 (add_stacked_item_fill_first
                         [with_qty "Scrap" 60; with_qty "Medpack" 1] "Scrap" 10))).
  vm_compute. lia.
Defined.

(** X6: [add_stacked_item] does not multiply partial stacks: after the call
    the number of stacks of the name that hold less than 64 units is at most
    one, or at most what it was before when that was more. *)
Theorem add_stacked_item_partial_stacks (inventory : list item) (name : string)
    (qty : Z) :
  (length (partial_stacks name (add_stacked_item inventory name qty))
   <= Nat.max 1 (length (partial_stacks name inventory)))%nat.
Proof.
  unfold add_stacked_item.
  destruct (fill_partial_stacks inventory name qty) as [inventory' r] eqn:Ef.
  destruct (fill_partial_stacks_shape _ _ _ _ _ Ef) as (_ & _ & Hr).
  destruct r as [qty'|]; [|lia].
  destruct Hr as [Hp _].
  unfold partial_stacks in *. rewrite filter_app, length_app, Hp. simpl.
  destruct (open_new_stacks_shape name (Z.to_nat qty') qty' ltac:(lia)) as [H _].
  unfold partial_stacks in H. lia.
Qed.

(** X7: adding a quantity of zero opens no stack: [add_stacked_item] with
    quantity 0 returns an inventory with the same names and the same
    quantities, stack by stack. *)
Theorem add_stacked_item_zero (inventory : list item) (name : string) :
  stack_qty <$> add_stacked_item inventory name 0 = stack_qty <$> inventory /\
  item_name <$> add_stacked_item inventory name 0 = item_name <$> inventory.
Proof.
  unfold add_stacked_item.
  assert (H : forall inventory' r,
             fill_partial_stacks inventory name 0 = (inventory', r) ->
             stack_qty <$> inventory' = stack_qty <$> inventory /\
             item_name <$> inventory' = item_name <$> inventory /\
             (r = None \/ r = Some 0)).
  { induction inventory as [|i rest IH]; intros inventory' r Hf; simpl in Hf.
    - inversion Hf; subst. auto.
    - destruct (String.eqb_spec (item_name i) name) as [En|En]; simpl in Hf.
      + destruct (Z.leb_spec SCRAP_STACK_SIZE (stack_qty i)) as [Hfull|Hpart].
        * destruct (fill_partial_stacks rest name 0) as [rest' r'] eqn:Er.
          inversion Hf; subst. destruct (IH _ _ eq_refl) as (H1 & H2 & H3).
          rewrite !fmap_cons, H1, H2. auto.
        * rewrite Z.min_r in Hf by lia. simpl in Hf.
          inversion Hf; subst. rewrite !fmap_cons.
          rewrite (stack_qty_get (set_qty_count _ _)). unfold get_qty. simpl.
          rewrite Z.add_0_r. auto.
      + destruct (fill_partial_stacks rest name 0) as [rest' r'] eqn:Er.
        inversion Hf; subst. destruct (IH _ _ eq_refl) as (H1 & H2 & H3).
        rewrite !fmap_cons, H1, H2. auto. }
  destruct (fill_partial_stacks inventory name 0) as [inventory' r].
  destruct (H _ _ eq_refl) as (H1 & H2 & [->| ->]); [done|].
  change (open_new_stacks name 0) with (@nil item). by rewrite app_nil_r.
Qed.

(** ** Unknown sessions *)

(** X8: for a session id that is not in the store, every route that takes
    one ([get_game_state], [run_command], [heal_player], [shop_buy],
    [search], [start_adventure], [attack_enemy], [claim_loot],
    [unlock_location]) raises 404 "Session not found" and leaves the store
    and the random generator as they were. *)
Theorem unknown_session_is_rejected
    (execute_command_simple : string -> list string -> Session -> Session * command_result)
    (sessions : gmap string Session) (g : rng) (session_id : string) :
  sessions !! session_id = None ->
  get_game_state sessions session_id
    = (sessions, HTTPException 404 "Session not found") /\
  (forall command args,
     run_command execute_command_simple sessions
       (mkCommandRequest session_id command args)
     = (sessions, HTTPException 404 "Session not found")) /\
  heal_player sessions session_id
    = (sessions, HTTPException 404 "Session not found") /\
  (forall item_name,
     shop_buy sessions (mkShopBuyRequest session_id item_name)
     = (sessions, HTTPException 404 "Session not found")) /\
  search sessions g (mkSearchRequest session_id)
    = (sessions, g, HTTPException 404 "Session not found") /\
  start_adventure sessions g session_id
    = (sessions, g, HTTPException 404 "Session not found") /\
  (forall enemy_id attack,
     attack_enemy sessions g session_id enemy_id attack
     = (sessions, g, HTTPException 404 "Session not found")) /\
  claim_loot sessions session_id
    = (sessions, HTTPException 404 "Session not found") /\
  (forall location_id,
     unlock_location sessions session_id location_id
     = (sessions, HTTPException 404 "Session not found")).
Proof.
  intros Hs.
  unfold get_game_state, run_command, heal_player, shop_buy, search,
    start_adventure, attack_enemy, claim_loot, unlock_location.
  simpl. rewrite Hs. repeat split.
Qed.

Lemma unknown_session_is_rejected_witness :
  heal_player {[ "s1" := new_session ]} "s2"
    = ({[ "s1" := new_session ]}, HTTPException 404 "Session not found") /\
  claim_loot {[ "s1" := new_session ]} "s2"
    = ({[ "s1" := new_session ]}, HTTPException 404 "Session not found").
Proof.
  destruct (unknown_session_is_rejected execute_command_unavailable
              {[ "s1" := new_session ]} fixed_rng "s2")
    as (_ & _ & H3 & _ & _ & _ & _ & H8 & _).
  - reflexivity.
  - split; [exact H3 | exact H8].
Defined.

(** ** Sessions do not interfere *)

(** X9: sessions do not interfere: whatever the request, the session
    stored under any id other than the one the request addresses is the
    same before and after it is served. *)
Theorem serve_other_sessions
    (execute_command_simple : string -> list string -> Session -> Session * command_result)
    (sessions : gmap string Session) (g : rng) (rq : request) (session_id : string) :
  session_id <> request_session rq ->
  (serve execute_command_simple (sessions, g) rq).1 !! session_id
    = sessions !! session_id.
Proof.
  intros Hne. destruct rq; cbn [serve request_session] in *.
  - cbn. by rewrite lookup_insert_ne.
  - unfold get_game_state. destruct (sessions !! _); [|done].
    cbn [fst]. by rewrite lookup_insert_ne.
  - unfold run_command. destruct (sessions !! _); [|done].
    destruct (String.eqb _ _).
    + destruct (deposit_scrap _ _). cbn [fst]. by rewrite lookup_insert_ne.
    + destruct (execute_command_simple _ _ _). cbn [fst].
      by rewrite lookup_insert_ne.
  - unfold heal_player. destruct (sessions !! _); [|done].
    cbn [fst]. by rewrite lookup_insert_ne.
  - unfold shop_buy. destruct (sessions !! _); [|done].
    destruct (PRICES !! _); [|done]. destruct (_ <? _); [done|]. cbn [fst].
    by rewrite lookup_insert_ne.
  - unfold search. destruct (sessions !! _); [|done].
    destruct (_ <=? _); [done|].
    destruct (randint 1 2 g) as [rolls g1].
    destruct (search_rolls _ _ _ _) as [[inv found] g2].
    destruct (randint 5 25 g2) as [gain g3]. cbn [fst].
    by rewrite lookup_insert_ne.
  - unfold start_adventure. destruct (sessions !! _); [|done].
    destruct (randint 1 2 g) as [enemy_count g1].
    destruct (spawn_raiders _ _ _ g1) as [enemies g2].
    destruct (randint 20 60 g2) as [credits_count g3].
    destruct (randint 1 4 g3) as [scrap_count g4].
    destruct (randint 0 2 g4) as [iron_count g5]. cbn [fst].
    by rewrite lookup_insert_ne.
  - unfold attack_enemy. destruct (sessions !! _); [|done].
    destruct (attack_session _ _ _ _) as [[session' g'] r]. cbn [fst].
    by rewrite lookup_insert_ne.
  - unfold claim_loot. destruct (sessions !! _); [|done].
    cbn [fst]. by rewrite lookup_insert_ne.
  - unfold unlock_location. destruct (sessions !! _); [|done].
    destruct (unlock_costs !! _); [|done]. destruct (_ <? _); [done|]. cbn [fst].
    by rewrite lookup_insert_ne.
Qed.

Lemma serve_other_sessions_witness :
  (serve execute_command_unavailable
     ({[ "s1" := two_raiders; "s2" := scrap_holder ]}, fixed_rng)
     (PostAttack "s1" 0 50)).1 !! "s2"
    = ({[ "s1" := two_raiders; "s2" := scrap_holder ]} : gmap string Session) !! "s2".
Proof.
  apply (serve_other_sessions execute_command_unavailable
           {[ "s1" := two_raiders; "s2" := scrap_holder ]} fixed_rng
           (PostAttack "s1" 0 50) "s2").
  simpl. discriminate.
Defined.

(** ** Searching with room left *)

Lemma randint_range (a b : Z) (g : rng) : a <= b -> a <= (randint a b g).1 <= b.
Proof.
  intros Hab. unfold randint. simpl.
  pose proof (Z.mod_pos_bound (Z.of_nat (tape g (cursor g))) (b - a + 1) ltac:(lia)).
  lia.
Qed.

Lemma total_qty_other_name (name name' : string) (inv1 inv2 : list item) :
  name' <> name ->
  other_stacks name inv1 = other_stacks name inv2 ->
  total_qty name' inv1 = total_qty name' inv2.
Proof.
  intros Hne Ho.
  assert (H : forall inv, total_qty name' inv = total_qty name' (other_stacks name inv)).
  { intros inv. unfold total_qty, other_stacks. f_equal. f_equal.
    rewrite list_filter_filter. apply list_filter_iff. intros i. naive_solver. }
  by rewrite (H inv1), (H inv2), Ho.
Qed.

Lemma add_stacked_item_total_any (inventory : list item) (name name' : string) (qty : Z) :
  0 <= qty ->
  total_qty name' (add_stacked_item inventory name qty)
    = total_qty name' inventory + total_qty name' [with_qty name qty].
Proof.
  intros Hq.
  destruct (add_stacked_item_spec inventory name qty Hq) as (Ho & _ & Ht).
  destruct (decide (name' = name)) as [->|Hne].
  - rewrite Ht, total_qty_cons_eq by done.
    rewrite stack_qty_get. unfold get_qty. simpl. rewrite total_qty_nil. lia.
  - rewrite (total_qty_other_name name name' _ inventory Hne Ho).
    rewrite total_qty_cons_ne by (simpl; congruence). rewrite total_qty_nil. lia.
Qed.

Lemma add_stacked_item_one_slot (inventory : list item) (name : string) (qty : Z) :
  0 <= qty <= SCRAP_STACK_SIZE ->
  (length inventory <= length (add_stacked_item inventory name qty)
   <= S (length inventory))%nat /\
  (Forall wf_item inventory -> Forall wf_item (add_stacked_item inventory name qty)).
Proof.
  intros Hq. unfold add_stacked_item.
  destruct (fill_partial_stacks inventory name qty) as [inventory' r] eqn:Ef.
  destruct (fill_partial_stacks_shape _ _ _ _ _ Ef) as (Hn & Hw & Hr).
  assert (Hlen : length inventory' = length inventory).
  { by rewrite <- (length_fmap item_name inventory'), Hn, length_fmap. }
  destruct r as [qty'|].
  - destruct Hr as [_ Hle].
    destruct (open_new_stacks_shape name (Z.to_nat qty') qty' ltac:(lia))
      as (_ & H1 & _).
    rewrite length_app, Hlen. specialize (H1 ltac:(lia)).
    split; [lia|]. intros Hall. apply Forall_app. split; [apply Hw; [lia|done]|].
    destruct (open_new_stacks_spec name (Z.to_nat qty') qty' ltac:(lia)) as [Hs _].
    eapply Forall_impl; [exact Hs|]. intros i [_ Hi]. exact Hi.
  - rewrite Hlen. split; [lia|]. intros Hall. apply Hw; [lia|done].
Qed.

Lemma search_rolls_spec (rolls : nat) :
  forall (inventory found_items : list item) (g : rng)
         (inventory' found_items' : list item) (g' : rng),
  search_rolls rolls inventory found_items g = (inventory', found_items', g') ->
  exists new_items : list item,
    found_items' = found_items ++ new_items /\
    (length new_items <= rolls)%nat /\
    Forall from_loot_table new_items /\
    (forall name, total_qty name inventory'
                  = total_qty name inventory + total_qty name new_items) /\
    (length inventory <= length inventory')%nat /\
    ((length inventory <= 6)%nat -> (length inventory' <= 6)%nat) /\
    (Forall wf_item inventory -> Forall wf_item inventory') /\
    ((0 < rolls)%nat -> (length inventory < 6)%nat -> new_items <> []).
Proof.
  induction rolls as [|rolls IH];
    intros inventory found_items g inventory' found_items' g' Hr;
    cbn [search_rolls] in Hr.
  - inversion Hr; subst. exists []. rewrite app_nil_r.
    split_and!; try done; try (simpl; lia).
    intros name. rewrite total_qty_nil. lia.
  - unfold MAX_INVENTORY_SLOTS in Hr.
    destruct (Z.leb_spec 6 (Z.of_nat (length inventory))) as [Hfull|Hroom].
    + inversion Hr; subst. exists []. rewrite app_nil_r.
      split_and!; try done; try (simpl; lia).
      intros name. rewrite total_qty_nil. lia.
    + pose proof (choice_elem loot_table_head loot_table_tail g) as Hin.
      destruct (choice loot_table_head loot_table_tail g) as [[name qty] g1].
      simpl in Hin.
      assert (Hq : qty = 1 /\ from_loot_table (with_qty name 1)).
      { unfold loot_table_head, loot_table_tail in Hin.
        repeat (apply elem_of_cons in Hin as [Hin|Hin];
                [inversion Hin; subst; split; [done|];
                 eexists; split; [|reflexivity]; set_solver|]).
        by apply elem_of_nil in Hin. }
      destruct Hq as [-> Htab].
      destruct (IH _ _ _ _ _ _ Hr)
        as (new_items & Hf & Hl & Ht & Hq & Hlen & Hcap & Hw & _).
      destruct (add_stacked_item_one_slot inventory name 1) as [Hslot Hwf];
        [unfold SCRAP_STACK_SIZE; lia|].
      exists (with_qty name 1 :: new_items).
      split; [by rewrite Hf, <- app_assoc|].
      split; [simpl; lia|]. split; [by constructor|].
      split.
      { intros name'. rewrite Hq, add_stacked_item_total_any by lia.
        change (with_qty name 1 :: new_items)
          with ([with_qty name 1] ++ new_items).
        rewrite (total_qty_app name' [with_qty name 1] new_items). lia. }
      split; [lia|]. split; [intros _; apply Hcap; lia|].
      split; [intros Hall; by apply Hw, Hwf|]. done.
Qed.

(** X10: for an existing session with fewer than [MAX_INVENTORY_SLOTS] (6)
    stacks, [search] succeeds, adds between 5 and 25 credits, and finds one
    or two items, each one unit of an entry of the loot table; the total
    held under every name grows by exactly what was found, the inventory
    does not shrink and ends with at most 6 stacks, and health and plasma
    durability are kept. *)
Theorem search_finds_items (sessions : gmap string Session) (g : rng)
    (req : SearchRequest) (session : Session) :
  sessions !! sr_session_id req = Some session ->
  Z.of_nat (length (p_inventory (s_player session))) < MAX_INVENTORY_SLOTS ->
  exists (player' : Player) (found_items : list item) (credits_gain : Z) (g' : rng),
    search sessions g req
      = (<[sr_session_id req := set_player session player']> sessions, g',
         Return (mkSearchReply true "You scour the area and find some useful scraps."
                   player' found_items credits_gain)) /\
    5 <= credits_gain <= 25 /\
    p_credits player' = p_credits (s_player session) + credits_gain /\
    (1 <= length found_items <= 2)%nat /\
    Forall from_loot_table found_items /\
    (forall name, total_qty name (p_inventory player')
                  = total_qty name (p_inventory (s_player session))
                    + total_qty name found_items) /\
    (length (p_inventory (s_player session)) <= length (p_inventory player')
     <= 6)%nat /\
    p_health player' = p_health (s_player session) /\
    p_plasma_durability player' = p_plasma_durability (s_player session).
Proof.
  intros Hs Hroom. unfold search. rewrite Hs.
  unfold MAX_INVENTORY_SLOTS in *.
  destruct (Z.leb_spec 6 (Z.of_nat (length (p_inventory (s_player session)))));
    [lia|].
  pose proof (randint_range 1 2 g ltac:(lia)) as Hrolls.
  destruct (randint 1 2 g) as [rolls g1]. simpl in Hrolls.
  destruct (search_rolls (Z.to_nat rolls) (p_inventory (s_player session)) [] g1)
    as [[inventory' found_items] g2] eqn:Er.
  pose proof (randint_range 5 25 g2 ltac:(lia)) as Hgain.
  destruct (randint 5 25 g2) as [credits_gain g3]. simpl in Hgain.
  destruct (search_rolls_spec _ _ _ _ _ _ _ Er)
    as (new_items & Hf & Hl & Ht & Hq & Hlen & Hcap & _ & Hne).
  simpl in Hf. subst found_items.
  eexists _, _, _, _. split; [reflexivity|]. simpl.
  split; [done|]. split; [done|].
  split.
  { split; [|lia]. destruct new_items; [|simpl; lia].
    exfalso. apply Hne; [lia|lia|done]. }
  split; [done|]. split; [done|]. split; [lia|]. done.
Qed.

Lemma search_finds_items_witness :
  exists (player' : Player) (found_items : list item) (credits_gain : Z) (g' : rng),
    search {[ "s1" := new_session ]} fixed_rng (mkSearchRequest "s1")
      = (<[ "s1" := set_player new_session player' ]> {[ "s1" := new_session ]}, g',
         Return (mkSearchReply true "You scour the area and find some useful scraps."
                   player' found_items credits_gain)) /\
    5 <= credits_gain <= 25 /\
    p_credits player' = 0 + credits_gain /\
    (1 <= length found_items <= 2)%nat.
Proof.
  destruct (search_finds_items {[ "s1" := new_session ]} fixed_rng
              (mkSearchRequest "s1") new_session)
    as (player' & found_items & credits_gain & g' & H1 & H2 & H3 & H4 & _).
  - reflexivity.
  - reflexivity.
  - exists player', found_items, credits_gain, g'.
    split; [exact H1|]. split; [exact H2|]. split; [exact H3 | exact H4].
Defined.

(** ** Encounters *)

Lemma plasma_blaster_durability_level (session : Session) :
  p_level (s_player (plasma_blaster_durability session)) = p_level (s_player session).
Proof.
  unfold plasma_blaster_durability.
  repeat (case_match; simpl; try done).
Qed.

Lemma spawn_raiders_spec (count : nat) :
  forall (first : Z) (player : Player) (g : rng) (enemies : list Enemy) (g' : rng),
  spawn_raiders count first player g = (enemies, g') ->
  length enemies = count /\
  e_id <$> enemies = seqZ first (Z.of_nat count) /\
  Forall (raider_of_level (p_level player)) enemies.
Proof.
  induction count as [|count IH]; intros first player g enemies g' Hs;
    cbn [spawn_raiders] in Hs.
  - inversion Hs; subst. done.
  - pose proof (randint_range (p_level player) (p_level player + 1) g ltac:(lia))
      as Hlevel.
    destruct (randint (p_level player) (p_level player + 1) g) as [level g1].
    simpl in Hlevel.
    destruct (spawn_raiders count (first + 1) player g1) as [rest g2] eqn:Er.
    inversion Hs; subst enemies g'. clear Hs.
    destruct (IH _ _ _ _ _ Er) as (Hl & Hi & Hf).
    split; [simpl; lia|]. split.
    + rewrite seqZ_cons by lia. rewrite fmap_cons. simpl. f_equal.
      rewrite Hi. f_equal; lia.
    + constructor; [|done]. unfold raider_of_level. simpl. repeat split; lia.
Qed.

(** X11: for an existing session, [start_adventure] replies with one or two
    raiders numbered 0, 1 in order, each of the player's level or one above
    with health [40 + 10 * level], attack [8 + 2 * level] and reward
    [10 + 5 * level], and with a manifest of 20 to 60 credits, 1 to 4 scrap
    and 0 to 2 iron scrap; the raiders become the session's combat and the
    manifest replaces whatever loot was still unclaimed. *)
Theorem start_adventure_encounter (sessions : gmap string Session) (g : rng)
    (session_id : string) (session : Session) :
  sessions !! session_id = Some session ->
  exists (session' : Session) (g' : rng) (reply : adventure_reply)
         (credits_count scrap_count iron_count : Z),
    start_adventure sessions g session_id
      = (<[session_id := session']> sessions, g', Return reply) /\
    s_combat session' = Some (mkCombat (adv_enemies reply)) /\
    s_unclaimed_loot session' = adv_loot reply /\
    (1 <= length (adv_enemies reply) <= 2)%nat /\
    e_id <$> adv_enemies reply = seqZ 0 (Z.of_nat (length (adv_enemies reply))) /\
    Forall (raider_of_level (p_level (s_player session))) (adv_enemies reply) /\
    adv_loot reply
      = [with_count "Credits" credits_count; with_count "Scrap" scrap_count;
         with_count "Iron Scrap" iron_count] /\
    20 <= credits_count <= 60 /\
    1 <= scrap_count <= 4 /\
    0 <= iron_count <= 2.
Proof.
  intros Hs. unfold start_adventure. rewrite Hs.
  pose proof (randint_range 1 2 g ltac:(lia)) as Hcount.
  destruct (randint 1 2 g) as [enemy_count g1]. simpl in Hcount.
  destruct (spawn_raiders _ _ _ g1) as [enemies g2] eqn:Er.
  pose proof (randint_range 20 60 g2 ltac:(lia)) as Hc.
  destruct (randint 20 60 g2) as [credits_count g3]. simpl in Hc.
  pose proof (randint_range 1 4 g3 ltac:(lia)) as Hsc.
  destruct (randint 1 4 g3) as [scrap_count g4]. simpl in Hsc.
  pose proof (randint_range 0 2 g4 ltac:(lia)) as Hi.
  destruct (randint 0 2 g4) as [iron_count g5]. simpl in Hi.
  destruct (spawn_raiders_spec _ _ _ _ _ _ Er) as (Hl & Hid & Hf).
  rewrite plasma_blaster_durability_level in Hf.
  eexists _, _, _, credits_count, scrap_count, iron_count.
  split; [reflexivity|]. simpl.
  split; [done|]. split; [done|]. split; [lia|].
  split; [by rewrite Hl|]. done.
Qed.

Lemma start_adventure_encounter_witness :
  exists (session' : Session) (g' : rng) (reply : adventure_reply)
         (credits_count scrap_count iron_count : Z),
    start_adventure {[ "s1" := new_session ]} fixed_rng "s1"
      = (<[ "s1" := session' ]> {[ "s1" := new_session ]}, g', Return reply) /\
    (1 <= length (adv_enemies reply) <= 2)%nat /\
    Forall (raider_of_level 1) (adv_enemies reply) /\
    adv_loot reply
      = [with_count "Credits" credits_count; with_count "Scrap" scrap_count;
         with_count "Iron Scrap" iron_count] /\
    20 <= credits_count <= 60.
Proof.
  destruct (start_adventure_encounter {[ "s1" := new_session ]} fixed_rng "s1"
              new_session)
    as (session' & g' & reply & c & s & i & H1 & _ & _ & H4 & _ & H6 & H7 & H8 & _).
  - reflexivity.
  - exists session', g', reply, c, s, i.
    split; [exact H1|]. split; [exact H4|]. split; [exact H6|].
    split; [exact H7 | exact H8].
Defined.

(** ** What a strike does *)

(** X12: whenever [attack_enemy] returns a reply, the session was in combat
    and the strike went to the first enemy of the roster carrying the id;
    the roster sent back is the old one with that enemy removed when the
    attack covers its health, and with its health lowered by the attack
    otherwise; the player's credits grow by the enemy's reward exactly when
    it was removed and the reward is positive; inventory, plasma durability,
    maximal health and level are kept, and the stored session keeps its
    unclaimed loot, messages and node and holds the player of the reply. *)
Theorem attack_enemy_strike (sessions : gmap string Session) (g : rng)
    (session_id : string) (enemy_id attack : Z) (session : Session)
    (sessions' : gmap string Session) (g' : rng) (reply : attack_reply) :
  sessions !! session_id = Some session ->
  attack_enemy sessions g session_id enemy_id attack = (sessions', g', Return reply) ->
  exists (session' : Session) (combat : Combat) (target_index : nat) (target : Enemy),
    s_combat session = Some combat /\
    c_enemies combat !! target_index = Some target /\
    e_id target = enemy_id /\
    (forall (j : nat) (e : Enemy),
       (j < target_index)%nat -> c_enemies combat !! j = Some e -> e_id e <> enemy_id) /\
    a_enemies reply
      = (if e_health target - attack <=? 0
         then delete target_index (c_enemies combat)
         else <[target_index := set_enemy_health target (e_health target - attack)]>
                (c_enemies combat)) /\
    p_credits (a_player reply)
      = p_credits (s_player session)
        + (if (e_health target - attack <=? 0) && (0 <? e_credit_reward target)
           then e_credit_reward target else 0) /\
    p_inventory (a_player reply) = p_inventory (s_player session) /\
    p_plasma_durability (a_player reply) = p_plasma_durability (s_player session) /\
    p_max_health (a_player reply) = p_max_health (s_player session) /\
    p_level (a_player reply) = p_level (s_player session) /\
    sessions' = <[session_id := session']> sessions /\
    s_player session' = a_player reply /\
    s_unclaimed_loot session' = s_unclaimed_loot session /\
    s_messages session' = s_messages session /\
    s_node session' = s_node session.
Proof.
  intros Hs He. unfold attack_enemy in He. rewrite Hs in He.
  destruct (attack_session session g enemy_id attack) as [[session' g1] r1] eqn:Ea.
  inversion He; subst sessions' g1 r1. clear He.
  destruct (attack_session_raises _ _ _ _ _ _ _ Ea)
    as (combat & target_index & target & Ec & Ef).
  rewrite (attack_session_normal _ _ _ _ _ _ _ Ec Ef) in Ea. cbv zeta in Ea.
  apply list_find_Some in Ef as (Hl & Hid & Hfirst).
  assert (Hk : (e_health (set_enemy_health target (0 `max` (e_health target - attack)))
                <=? 0) = (e_health target - attack <=? 0)).
  { simpl. destruct (Z.leb_spec (e_health target - attack) 0);
      destruct (Z.leb_spec (0 `max` (e_health target - attack)) 0); lia. }
  rewrite Hk in Ea.
  exists session', combat, target_index, target.
  split; [done|]. split; [done|]. split; [done|].
  split; [intros j e Hj Hje; by eapply Hfirst|].
  destruct (Z.leb_spec (e_health target - attack) 0) as [Hdead|Halive].
  - rewrite delete_insert_same in Ea. cbn [andb] in Ea.
    destruct (delete target_index (c_enemies combat)) as [|first others];
      destruct (enemy_damage attack) as [edmg|];
      inversion Ea; subst; simpl; destruct (0 <? e_credit_reward target);
      simpl; split_and!; try done; lia.
  - rewrite Z.max_r in Ea by lia. cbn [andb] in Ea.
    destruct (<[target_index:=_]> (c_enemies combat)) as [|first others] eqn:Ei;
      destruct (enemy_damage attack) as [edmg|];
      inversion Ea; subst; simpl; split_and!; try done; lia.
Qed.

Lemma attack_enemy_strike_witness :
  exists (session' : Session) (combat : Combat) (target_index : nat) (target : Enemy),
    s_combat two_raiders = Some combat /\
    c_enemies combat !! target_index = Some target /\
    a_enemies survivor_reply
      = (if e_health target - 50 <=? 0
         then delete target_index (c_enemies combat)
         else <[target_index := set_enemy_health target (e_health target - 50)]>
                (c_enemies combat)) /\
    p_credits (a_player survivor_reply)
      = 0 + (if (e_health target - 50 <=? 0) && (0 <? e_credit_reward target)
             then e_credit_reward target else 0).
Proof.
  assert (Hr : (attack_enemy {[ "s1" := two_raiders ]} fixed_rng "s1" 0 50).2
               = Return survivor_reply) by (vm_compute; reflexivity).
  destruct (attack_enemy_strike {[ "s1" := two_raiders ]} fixed_rng "s1" 0 50
              two_raiders _ _ survivor_reply (lookup_singleton_eq _ _)
              (eq_trans (triple_eta _) (f_equal (pair _) Hr)))
    as (session' & combat & target_index & target & H1 & H2 & _ & _ & H5 & H6 & _).
  exists session', combat, target_index, target.
  split; [exact H1|]. split; [exact H2|]. split; [exact H5 | exact H6].
Defined.

(** ** Defeat *)




(** ** An attack too large for a float *)

(** X17: when an attack that has no binary64 value (its counter-damage
    cannot be formed) strikes an enemy of the roster and leaves at least one
    enemy, [attack_enemy] raises [OverflowError] after the player's turn has
    taken effect: the stored roster is the one after the strike, the reward
    of a removed enemy has been added to the credits, and a striker has been
    drawn; the player's health, inventory and the unclaimed loot are as
    before, and no reply is sent. *)
Theorem attack_enemy_overflow (sessions : gmap string Session) (g : rng)
    (session_id : string) (enemy_id attack : Z) (session : Session)
    (combat : Combat) :
  sessions !! session_id = Some session ->
  s_combat session = Some combat ->
  enemy_id ∈ e_id <$> c_enemies combat ->
  resolve_attack_roster (c_enemies combat) enemy_id attack <> [] ->
  enemy_damage attack = None ->
  exists (session' : Session) (target_index : nat) (target first : Enemy)
         (others : list Enemy),
    resolve_attack_roster (c_enemies combat) enemy_id attack = first :: others /\
    attack_enemy sessions g session_id enemy_id attack
      = (<[session_id := session']> sessions, (choice first others g).2,
         OverflowError) /\
    c_enemies combat !! target_index = Some target /\
    e_id target = enemy_id /\
    (forall (j : nat) (e : Enemy),
       (j < target_index)%nat -> c_enemies combat !! j = Some e -> e_id e <> enemy_id) /\
    s_combat session' = Some (mkCombat (first :: others)) /\
    p_credits (s_player session')
      = p_credits (s_player session)
        + (if (e_health target - attack <=? 0) && (0 <? e_credit_reward target)
           then e_credit_reward target else 0) /\
    p_health (s_player session') = p_health (s_player session) /\
    p_inventory (s_player session') = p_inventory (s_player session) /\
    s_unclaimed_loot session' = s_unclaimed_loot session.
Proof.
  intros Hs Ec Hid Hleft Hd.
  destruct (list_find_id _ _ Hid) as (target_index & target & Ef).
  unfold attack_enemy. rewrite Hs.
  rewrite resolve_attack_roster_find, Ef in Hleft |- *. cbv zeta in Hleft |- *.
  rewrite (attack_session_normal _ _ _ _ _ _ _ Ec Ef). cbv zeta. rewrite Hd.
  apply list_find_Some in Ef as (Hl & Ht & Hfirst).
  assert (Hk : (e_health (set_enemy_health target (0 `max` (e_health target - attack))) <=? 0)
               = (e_health target - attack <=? 0)).
  { simpl. destruct (Z.leb_spec (e_health target - attack) 0);
      destruct (Z.leb_spec (0 `max` (e_health target - attack)) 0); lia. }
  rewrite Hk in Hleft |- *.
  set (enemies1 := if e_health target - attack <=? 0 then _ else _) in *.
  destruct enemies1 as [|first others] eqn:Ee; [done|].
  eexists _, target_index, target, first, others.
  split; [reflexivity|]. split; [reflexivity|]. split; [done|]. split; [done|].
  split; [intros j e Hj Hje; by eapply Hfirst|].
  split; [reflexivity|].
  cbn [s_player set_player].
  destruct (e_health target - attack <=? 0); cbn [andb];
    [destruct (0 <? e_credit_reward target)|]; cbn; split_and!; try done; lia.
Qed.

Lemma attack_enemy_overflow_witness :
  exists session' : Session,
    attack_enemy {[ "s1" := two_raiders ]} fixed_rng "s1" 0 (2 ^ 1024)
      = (<[ "s1" := session' ]> {[ "s1" := two_raiders ]},
         (choice (raider 1 30) [] fixed_rng).2, OverflowError) /\
    s_combat session' = Some (mkCombat [raider 1 30]) /\
    p_credits (s_player session') = 15 /\
    p_health (s_player session') = 100.
Proof.
  destruct (attack_enemy_overflow {[ "s1" := two_raiders ]} fixed_rng "s1" 0 (2 ^ 1024)
              two_raiders (mkCombat [raider 0 50; raider 1 30]))
    as (session' & target_index & target & first & others & H1 & H2 & H3 & _ & H5
        & H6 & H7 & H8 & _).
  - reflexivity.
  - reflexivity.
  - apply (bool_decide_unpack _). vm_compute. exact I.
  - vm_compute. discriminate.
  - vm_compute. reflexivity.
  - assert (Hr : first = raider 1 30 /\ others = []).
    { vm_compute in H1. by inversion H1. }
    destruct Hr as [-> ->].
    assert (Ht : target = raider 0 50).
    { destruct target_index as [|j].
      - simpl in H3. by inversion H3.
      - exfalso. exact (H5 0%nat (raider 0 50) ltac:(lia) eq_refl eq_refl). }
    subst target.
    exists session'. split; [exact H2|]. split; [exact H6|].
    split; [|exact H8]. rewrite H7. vm_compute. reflexivity.
Defined.

(** ** Where a claimed manifest goes *)

Lemma manifest_qty_cons_eq name entry loot :
  item_name entry = name ->
  manifest_qty name (entry :: loot) = get_qty 1 entry + manifest_qty name loot.
Proof. intros H. unfold manifest_qty. by rewrite filter_cons_True. Qed.

Lemma manifest_qty_cons_ne name entry loot :
  item_name entry <> name ->
  manifest_qty name (entry :: loot) = manifest_qty name loot.
Proof. intros H. unfold manifest_qty. by rewrite filter_cons_False. Qed.

Lemma total_qty_single name name' qty :
  total_qty name' [with_qty name qty] = if decide (name = name') then qty else 0.
Proof.
  destruct (decide (name = name')) as [E|E].
  - rewrite total_qty_cons_eq by done. rewrite stack_qty_get. unfold get_qty. simpl.
    rewrite total_qty_nil. lia.
  - rewrite total_qty_cons_ne by done. apply total_qty_nil.
Qed.

Lemma claim_entries_accounting (loot : list item) : forall player : Player,
  Forall (fun entry => item_name entry ∈ ["Scrap"; "Iron Scrap"] ->
                       0 <= get_qty 1 entry) loot ->
  p_credits (foldl claim_entry player loot)
    = p_credits player + manifest_qty "Credits" loot /\
  (forall name, name <> "Credits" ->
     total_qty name (p_inventory (foldl claim_entry player loot))
       = total_qty name (p_inventory player) + manifest_qty name loot) /\
  p_health (foldl claim_entry player loot) = p_health player /\
  p_max_health (foldl claim_entry player loot) = p_max_health player /\
  p_plasma_durability (foldl claim_entry player loot) = p_plasma_durability player /\
  p_level (foldl claim_entry player loot) = p_level player.
Proof.
  induction loot as [|entry loot IH]; intros player Hq.
  - simpl. split; [unfold manifest_qty; simpl; lia|].
    split; [|done]. intros name _. unfold manifest_qty. simpl. lia.
  - inversion Hq as [|? ? Hentry Hrest]; subst.
    cbn [foldl].
    destruct (IH (claim_entry player entry) Hrest) as (Hc & Ht & Hh & Hm & Hd & Hl).
    rewrite Hc, Hh, Hm, Hd, Hl. clear Hc Hh Hm Hd Hl.
    unfold claim_entry in *.
    destruct (String.eqb_spec (item_name entry) "Credits") as [Ec|Ec].
    + rewrite manifest_qty_cons_eq by done. simpl.
      split; [lia|]. split; [|done].
      intros name Hn. rewrite (Ht name Hn). simpl.
      rewrite manifest_qty_cons_ne by congruence. done.
    + rewrite (manifest_qty_cons_ne "Credits") by done.
      destruct (bool_decide (item_name entry ∈ ["Scrap"; "Iron Scrap"])) eqn:Es.
      * apply bool_decide_eq_true in Es. specialize (Hentry Es). simpl.
        split; [done|]. split; [|done].
        intros name Hn. rewrite (Ht name Hn). simpl.
        rewrite add_stacked_item_total_any by done.
        rewrite total_qty_single.
        destruct (decide (item_name entry = name)) as [E|E].
        -- rewrite manifest_qty_cons_eq by done. lia.
        -- rewrite manifest_qty_cons_ne by done. lia.
      * simpl. split; [done|]. split; [|done].
        intros name Hn. rewrite (Ht name Hn). simpl.
        rewrite total_qty_app, total_qty_single.
        destruct (decide (item_name entry = name)) as [E|E].
        -- rewrite manifest_qty_cons_eq by done. lia.
        -- rewrite manifest_qty_cons_ne by done. lia.
Qed.

(** X14: for an existing session whose scrap entries are not negative,
    [claim_loot] adds to the credits exactly the units of its "Credits"
    entries and, for every other name, adds to the total held under that
    name exactly the units the manifest carries under it; health and plasma
    durability are kept and the manifest is left empty. *)
Theorem claim_loot_accounting (sessions : gmap string Session) (session_id : string)
    (session : Session) :
  sessions !! session_id = Some session ->
  Forall (fun entry => item_name entry ∈ ["Scrap"; "Iron Scrap"] ->
                       0 <= get_qty 1 entry) (s_unclaimed_loot session) ->
  exists player' : Player,
    claim_loot sessions session_id
      = (<[session_id := set_unclaimed_loot (set_player session player') []]> sessions,
         Return (mkClaimReply (s_unclaimed_loot session) player')) /\
    p_credits player'
      = p_credits (s_player session) + manifest_qty "Credits" (s_unclaimed_loot session) /\
    (forall name, name <> "Credits" ->
       total_qty name (p_inventory player')
         = total_qty name (p_inventory (s_player session))
           + manifest_qty name (s_unclaimed_loot session)) /\
    p_health player' = p_health (s_player session) /\
    p_plasma_durability player' = p_plasma_durability (s_player session).
Proof.
  intros Hs Hq. unfold claim_loot. rewrite Hs.
  destruct (claim_entries_accounting _ (s_player session) Hq)
    as (Hc & Ht & Hh & _ & Hd & _).
  eexists. split; [reflexivity|]. done.
Qed.

Lemma claim_loot_accounting_witness :
  exists player' : Player,
    claim_loot {[ "s1" := loot_holder ]} "s1"
      = (<[ "s1" := set_unclaimed_loot (set_player loot_holder player') [] ]>
           {[ "s1" := loot_holder ]},
         Return (mkClaimReply (s_unclaimed_loot loot_holder) player')) /\
    p_credits player' = 30 /\
    total_qty "Scrap" (p_inventory player') = 3.
Proof.
  destruct (claim_loot_accounting {[ "s1" := loot_holder ]} "s1" loot_holder)
    as (player' & H1 & H2 & H3 & _).
  - reflexivity.
  - repeat constructor; intros _; vm_compute; discriminate.
  - exists player'. split; [exact H1|]. split; [exact H2|].
    exact (H3 "Scrap" ltac:(discriminate)).
Defined.

(** ** Combat termination *)

Lemma combat_eta (combat : Combat) : combat = mkCombat (c_enemies combat).
Proof. by destruct combat. Qed.

(** What one call leaves of the combat: the roster of the specification
    while an enemy is left, no combat and a victory reply once none is. *)
Lemma attack_session_step (session : Session) (g : rng) (enemy_id attack : Z)
    (combat : Combat) :
  s_combat session = Some combat ->
  c_enemies combat <> [] ->
  s_unclaimed_loot (attack_session session g enemy_id attack).1.1
    = s_unclaimed_loot session /\
  (resolve_attack_roster (c_enemies combat) enemy_id attack <> [] ->
   s_combat (attack_session session g enemy_id attack).1.1
     = Some (mkCombat (resolve_attack_roster (c_enemies combat) enemy_id attack))) /\
  (resolve_attack_roster (c_enemies combat) enemy_id attack = [] ->
   s_combat (attack_session session g enemy_id attack).1.1 = None /\
   exists reply : attack_reply,
     (attack_session session g enemy_id attack).2 = Return reply /\
     a_combat_won reply = true /\
     a_enemies reply = [] /\
     a_loot reply = Some (s_unclaimed_loot session)).
Proof.
  intros Ec Hne. rewrite resolve_attack_roster_find.
  destruct (list_find (fun e => e_id e = enemy_id) (c_enemies combat))
    as [[target_index target]|] eqn:Ef.
  - rewrite (attack_session_normal _ _ _ _ _ _ _ Ec Ef). cbv zeta.
    match goal with
    | |- context [match ?e with nil => _ | cons _ _ => _ end] =>
      destruct e as [|first others] eqn:Ee
    end.
    + cbn. split; [done|]. split; [done|]. intros _. split; [done|].
      eexists. done.
    + destruct (enemy_damage attack) as [edmg|]; cbn; done.
  - unfold attack_session. rewrite Ec, Ef. cbn.
    split; [done|]. split; [|done].
    intros _. rewrite Ec. f_equal. apply combat_eta.
Qed.

Lemma attack_sequence_no_combat (calls : list (Z * Z)) :
  forall (sessions : gmap string Session) (g : rng) (session_id : string)
         (session : Session) (sessions' : gmap string Session) (g' : rng)
         (replies : list (http_result attack_reply)),
  sessions !! session_id = Some session ->
  s_combat session = None ->
  attack_sequence sessions g session_id calls = (sessions', g', replies) ->
  sessions' !! session_id = Some session.
Proof.
  induction calls as [|[enemy_id attack] calls IH];
    intros sessions g session_id session sessions' g' replies Hs Hc He;
    cbn [attack_sequence] in He.
  - by inversion He; subst.
  - unfold attack_enemy in He. rewrite Hs in He.
    unfold attack_session in He. rewrite Hc in He.
    destruct (attack_sequence (<[session_id:=session]> sessions) g session_id calls)
      as [[s2 g2] rs] eqn:Er.
    inversion He; subst.
    eapply IH; [|done|exact Er]. apply lookup_insert_eq.
Qed.

Lemma resolve_attacks_roster_nil (calls : list (Z * Z)) :
  resolve_attacks_roster [] calls = [].
Proof. unfold resolve_attacks_roster. induction calls; [done|]. simpl. done. Qed.

(** A run of calls leaves the roster the specification describes for it;
    once that roster is empty the combat is [None] and one of the calls has
    reported the win with the manifest. *)
Lemma attack_sequence_roster (calls : list (Z * Z)) :
  forall (sessions : gmap string Session) (g : rng) (session_id : string)
         (session : Session) (combat : Combat) (sessions' : gmap string Session)
         (g' : rng) (replies : list (http_result attack_reply)),
  sessions !! session_id = Some session ->
  s_combat session = Some combat ->
  c_enemies combat <> [] ->
  attack_sequence sessions g session_id calls = (sessions', g', replies) ->
  exists session' : Session,
    sessions' !! session_id = Some session' /\
    s_unclaimed_loot session' = s_unclaimed_loot session /\
    (resolve_attacks_roster (c_enemies combat) calls <> [] ->
     s_combat session'
       = Some (mkCombat (resolve_attacks_roster (c_enemies combat) calls))) /\
    (resolve_attacks_roster (c_enemies combat) calls = [] ->
     s_combat session' = None /\
     exists reply : attack_reply,
       Return reply ∈ replies /\
       a_combat_won reply = true /\
       a_enemies reply = [] /\
       a_loot reply = Some (s_unclaimed_loot session)).
Proof.
  induction calls as [|[enemy_id attack] calls IH];
    intros sessions g session_id session combat sessions' g' replies Hs Ec Hne He;
    cbn [attack_sequence] in He.
  - inversion He; subst. exists session. split; [done|]. split; [done|].
    unfold resolve_attacks_roster. simpl. split; [|done].
    intros _. rewrite Ec. f_equal. apply combat_eta.
  - unfold attack_enemy in He. rewrite Hs in He.
    destruct (attack_session_step session g enemy_id attack combat Ec Hne)
      as (Hloot & Hleft & Hwon).
    destruct (attack_session session g enemy_id attack) as [[session1 g1] r] eqn:Ea.
    cbn [fst snd] in Hloot, Hleft, Hwon.
    destruct (attack_sequence (<[session_id:=session1]> sessions) g1 session_id calls)
      as [[s2 g2] rs] eqn:Er.
    inversion He; subst sessions' g' replies. clear He.
    change (resolve_attacks_roster (c_enemies combat) ((enemy_id, attack) :: calls))
      with (resolve_attacks_roster
              (resolve_attack_roster (c_enemies combat) enemy_id attack) calls).
    destruct (resolve_attack_roster (c_enemies combat) enemy_id attack)
      as [|e roster1] eqn:Eroster.
    + destruct (Hwon eq_refl) as (Hc1 & reply & -> & Hw & Hn & Hl).
      exists session1.
      split; [eapply attack_sequence_no_combat; [apply lookup_insert_eq|done|exact Er]|].
      split; [done|]. rewrite resolve_attacks_roster_nil. split; [done|].
      intros _. split; [done|]. exists reply. split; [apply elem_of_cons; by left|done].
    + destruct (IH _ _ _ session1 (mkCombat (e :: roster1)) _ _ _
                  (lookup_insert_eq _ _ _) (Hleft ltac:(done)) ltac:(done) Er)
        as (session' & Hs' & Hloot' & Hleft' & Hwon').
      exists session'. split; [done|]. split; [congruence|].
      split; [done|]. intros Hnil.
      destruct (Hwon' Hnil) as (Hc' & reply & Hin & Hw & Hn & Hl).
      split; [done|]. exists reply.
      split; [apply elem_of_cons; by right|]. split; [done|]. split; [done|].
      congruence.
Qed.

(** C2: take an existing session in combat, with enemies on its roster,
    and any run of [attack_enemy] calls that brings every one of them to 0
    health (each strike taking the attack off the health of the first enemy
    with the id, floored at 0, the enemy leaving the roster at 0). After the
    run the session's combat is [None], one of the calls has reported the
    win, with an empty
    roster and the manifest generated when the encounter started, and that
    manifest is still the session's unclaimed loot. [claim_loot] then pays
    it out once: the first claim returns the manifest, adds its credits to
    the player's credits and, name by name, its units to what the inventory
    holds, and leaves an empty manifest; a second claim returns an empty
    list and changes nothing. As in every manifest [start_adventure] makes,
    the scrap counts are not negative. None of this depends on the player's
    health, so it holds in particular while it stays above 0. *)
Theorem attack_sequence_victory (calls : list (Z * Z))
    (sessions : gmap string Session) (g : rng) (session_id : string)
    (session : Session) (combat : Combat) (sessions' : gmap string Session)
    (g' : rng) (replies : list (http_result attack_reply)) :
  sessions !! session_id = Some session ->
  s_combat session = Some combat ->
  c_enemies combat <> [] ->
  resolve_attacks_roster (c_enemies combat) calls = [] ->
  Forall (fun entry => item_name entry ∈ ["Scrap"; "Iron Scrap"] ->
                       0 <= get_qty 1 entry) (s_unclaimed_loot session) ->
  attack_sequence sessions g session_id calls = (sessions', g', replies) ->
  exists (session' : Session) (reply : attack_reply)
         (sessions1 : gmap string Session) (session1 : Session),
    sessions' !! session_id = Some session' /\
    s_combat session' = None /\
    s_unclaimed_loot session' = s_unclaimed_loot session /\
    Return reply ∈ replies /\
    a_combat_won reply = true /\
    a_enemies reply = [] /\
    a_loot reply = Some (s_unclaimed_loot session) /\
    claim_loot sessions' session_id
      = (sessions1,
         Return (mkClaimReply (s_unclaimed_loot session) (s_player session1))) /\
    sessions1 !! session_id = Some session1 /\
    p_credits (s_player session1)
      = p_credits (s_player session')
        + manifest_qty "Credits" (s_unclaimed_loot session) /\
    (forall name, name <> "Credits" ->
       total_qty name (p_inventory (s_player session1))
         = total_qty name (p_inventory (s_player session'))
           + manifest_qty name (s_unclaimed_loot session)) /\
    s_unclaimed_loot session1 = [] /\
    claim_loot sessions1 session_id
      = (sessions1, Return (mkClaimReply [] (s_player session1))).
Proof.
  intros Hs Ec Hne Hnil Hq He.
  destruct (attack_sequence_roster calls _ _ _ _ _ _ _ _ Hs Ec Hne He)
    as (session' & Hs' & Hloot & _ & Hwon).
  destruct (Hwon Hnil) as (Hc & reply & Hin & Hw & Hn & Hl).
  rewrite <- Hloot in Hq.
  destruct (claim_entries_accounting _ (s_player session') Hq)
    as (Hcr & Ht & _).
  rewrite Hloot in Hcr, Ht.
  exists session', reply,
    (<[session_id :=
         set_unclaimed_loot
           (set_player session'
              (foldl claim_entry (s_player session') (s_unclaimed_loot session)))
           []]> sessions'),
    (set_unclaimed_loot
       (set_player session'
          (foldl claim_entry (s_player session') (s_unclaimed_loot session)))
       []).
  split; [done|]. split; [done|]. split; [done|]. split; [done|].
  split; [done|]. split; [done|]. split; [done|].
  unfold claim_loot at 1. rewrite Hs', Hloot.
  split; [reflexivity|]. split; [apply lookup_insert_eq|].
  split; [exact Hcr|]. split; [exact Ht|]. split; [reflexivity|].
  unfold claim_loot. rewrite lookup_insert_eq. simpl.
  by rewrite insert_insert_eq.
Qed.

Lemma attack_sequence_victory_witness :
  exists (session' : Session) (reply : attack_reply)
         (sessions1 : gmap string Session) (session1 : Session),
    (attack_sequence {[ "s1" := two_raiders ]} fixed_rng "s1" [(0, 50); (1, 30)]).1.1
      !! "s1" = Some session' /\
    s_combat session' = None /\
    Return reply
      ∈ (attack_sequence {[ "s1" := two_raiders ]} fixed_rng "s1" [(0, 50); (1, 30)]).2 /\
    a_loot reply = Some (s_unclaimed_loot two_raiders) /\
    sessions1 !! "s1" = Some session1 /\
    p_credits (s_player session1) = p_credits (s_player session') + 30 /\
    total_qty "Scrap" (p_inventory (s_player session1))
      = total_qty "Scrap" (p_inventory (s_player session')) + 3.
Proof.
  destruct (attack_sequence_victory [(0, 50); (1, 30)]
              {[ "s1" := two_raiders ]} fixed_rng "s1" two_raiders
              (mkCombat [raider 0 50; raider 1 30])
              (attack_sequence {[ "s1" := two_raiders ]} fixed_rng "s1"
                 [(0, 50); (1, 30)]).1.1
              (attack_sequence {[ "s1" := two_raiders ]} fixed_rng "s1"
                 [(0, 50); (1, 30)]).1.2
              (attack_sequence {[ "s1" := two_raiders ]} fixed_rng "s1"
                 [(0, 50); (1, 30)]).2
              (lookup_singleton_eq _ _) eq_refl)
    as (session' & reply & sessions1 & session1 & H1 & H2 & _ & H4 & _ & _ & H7 & _
        & H9 & H10 & H11 & _).
  - discriminate.
  - vm_compute. reflexivity.
  - repeat constructor; intros _; vm_compute; discriminate.
  - apply triple_eta.
  - exists session', reply, sessions1, session1.
    split; [exact H1|]. split; [exact H2|]. split; [exact H4|]. split; [exact H7|].
    split; [exact H9|]. split; [exact H10|].
    exact (H11 "Scrap" ltac:(discriminate)).
Defined.

(** ** The life of a Plasma Blaster *)

Lemma holds_app name inv1 inv2 : holds name (inv1 ++ inv2) = holds name inv1 || holds name inv2.
Proof. unfold holds. apply existsb_app. Qed.

Lemma holds_filter_out name (inventory : list item) :
  holds name (filter (fun i => item_name i <> name) inventory) = false.
Proof.
  unfold holds. induction inventory as [|i inv IH]; [done|].
  destruct (decide (item_name i = name)) as [E|E].
  - rewrite filter_cons_False; [done|]. intros ?. done.
  - rewrite filter_cons_True by done. simpl. rewrite IH.
    by destruct (String.eqb_spec (item_name i) name).
Qed.

(** X15: a Plasma Blaster lasts two adventures: buying one (90 credits)
    sets the durability to 2; the first [start_adventure] after that lowers
    it to 1, keeps the blaster and adds no message; the second lowers it to
    0, removes the blaster from the inventory, leaving the stacks held
    before the purchase, and appends the warning and the breaking message
    to the session's messages. *)
Theorem plasma_blaster_two_adventures (sessions : gmap string Session) (g1 g2 : rng)
    (session_id : string) (session : Session) :
  sessions !! session_id = Some session ->
  90 <= p_credits (s_player session) ->
  exists (bought first second : Session),
    (shop_buy sessions (mkShopBuyRequest session_id "Plasma Blaster")).1
      !! session_id = Some bought /\
    p_plasma_durability (s_player bought) = 2 /\
    (start_adventure
       (shop_buy sessions (mkShopBuyRequest session_id "Plasma Blaster")).1
       g1 session_id).1.1 !! session_id = Some first /\
    p_plasma_durability (s_player first) = 1 /\
    holds "Plasma Blaster" (p_inventory (s_player first)) = true /\
    s_messages first = s_messages session /\
    (start_adventure
       (start_adventure
          (shop_buy sessions (mkShopBuyRequest session_id "Plasma Blaster")).1
          g1 session_id).1.1
       g2 session_id).1.1 !! session_id = Some second /\
    p_plasma_durability (s_player second) = 0 /\
    p_inventory (s_player second)
      = filter (fun i => item_name i <> "Plasma Blaster")
          (p_inventory (s_player session)) /\
    holds "Plasma Blaster" (p_inventory (s_player second)) = false /\
    s_messages second
      = Some (default [] (s_messages session) ++ [plasma_warning; plasma_breaks]).
Proof.
  intros Hs Hc.
  assert (Hbuy : exists bought : Session,
             (shop_buy sessions (mkShopBuyRequest session_id "Plasma Blaster")).1
               = <[session_id := bought]> sessions /\
             p_plasma_durability (s_player bought) = 2 /\
             p_inventory (s_player bought)
               = p_inventory (s_player session) ++ [with_qty "Plasma Blaster" 1] /\
             s_messages bought = s_messages session).
  { unfold shop_buy. cbn [sb_session_id sb_item_name]. rewrite Hs.
    change (PRICES !! "Plasma Blaster") with (Some 90). cbv beta iota zeta.
    destruct (Z.ltb_spec (p_credits (s_player session)) 90); [lia|].
    eexists. split; [reflexivity|]. done. }
  destruct Hbuy as (bought & Hbuy & Hbd & Hbi & Hbm). rewrite Hbuy.
  assert (Hb : (<[session_id := bought]> sessions) !! session_id = Some bought)
    by apply lookup_insert_eq.
  destruct (start_adventure_session _ g1 session_id bought Hb)
    as (first & g1' & reply1 & He1 & Hp1 & Hm1 & _).
  rewrite He1. cbn [fst].
  assert (Hf : (<[session_id := first]> (<[session_id := bought]> sessions))
               !! session_id = Some first) by apply lookup_insert_eq.
  destruct (start_adventure_session _ g2 session_id first Hf)
    as (second & g2' & reply2 & He2 & Hp2 & Hm2 & _).
  rewrite He2. cbn [fst].
  assert (Hholds : holds "Plasma Blaster" (p_inventory (s_player bought)) = true).
  { rewrite Hbi, holds_app. simpl. by rewrite orb_true_r. }
  assert (Hfirst : s_player (plasma_blaster_durability bought)
                   = set_plasma_durability (s_player bought) 1 /\
                   s_messages (plasma_blaster_durability bought) = s_messages session).
  { unfold plasma_blaster_durability. rewrite Hholds, Hbd. simpl.
    rewrite Hbd. simpl. done. }
  destruct Hfirst as [Hfp Hfm].
  assert (Hsecond : s_player (plasma_blaster_durability first)
                    = set_inventory (set_plasma_durability (s_player first) 0)
                        (filter (fun i => item_name i <> "Plasma Blaster")
                           (p_inventory (s_player first))) /\
                    s_messages (plasma_blaster_durability first)
                    = Some (default [] (s_messages first)
                              ++ [plasma_warning; plasma_breaks])).
  { unfold plasma_blaster_durability. rewrite Hp1, Hfp.
    cbn [p_inventory set_plasma_durability p_plasma_durability].
    rewrite Hholds. simpl. rewrite Hp1, Hfp. simpl.
    split; [done|]. by rewrite <- app_assoc. }
  destruct Hsecond as [Hsp Hsm].
  exists bought, first, second.
  split; [done|]. split; [done|]. split; [apply lookup_insert_eq|].
  split; [by rewrite Hp1, Hfp|]. split; [by rewrite Hp1, Hfp|].
  split; [by rewrite Hm1, Hfm|]. split; [apply lookup_insert_eq|].
  rewrite Hp2, Hsp, Hm2, Hsm, Hm1, Hfm, Hp1, Hfp. simpl. rewrite Hbi.
  split; [done|]. split.
  { rewrite filter_app. rewrite (filter_cons_False _ (with_qty _ _)) by (intros ?; done).
    by rewrite filter_nil, app_nil_r. }
  split; [|done].
  rewrite filter_app. rewrite (filter_cons_False _ (with_qty _ _)) by (intros ?; done).
  rewrite filter_nil, app_nil_r. apply holds_filter_out.
Qed.

Lemma plasma_blaster_two_adventures_witness :
  exists (bought first second : Session),
    (shop_buy {[ "s1" := wealthy ]} (mkShopBuyRequest "s1" "Plasma Blaster")).1
      !! "s1" = Some bought /\
    p_plasma_durability (s_player bought) = 2 /\
    (start_adventure
       (shop_buy {[ "s1" := wealthy ]} (mkShopBuyRequest "s1" "Plasma Blaster")).1
       fixed_rng "s1").1.1 !! "s1" = Some first /\
    p_plasma_durability (s_player first) = 1 /\
    (start_adventure
       (start_adventure
          (shop_buy {[ "s1" := wealthy ]} (mkShopBuyRequest "s1" "Plasma Blaster")).1
          fixed_rng "s1").1.1
       fixed_rng "s1").1.1 !! "s1" = Some second /\
    p_plasma_durability (s_player second) = 0 /\
    holds "Plasma Blaster" (p_inventory (s_player second)) = false.
Proof.
  destruct (plasma_blaster_two_adventures {[ "s1" := wealthy ]} fixed_rng fixed_rng
              "s1" wealthy)
    as (bought & first & second & H1 & H2 & H3 & H4 & _ & _ & H7 & H8 & _ & H10 & _).
  - reflexivity.
  - vm_compute. discriminate.
  - exists bought, first, second.
    split; [exact H1|]. split; [exact H2|]. split; [exact H3|]. split; [exact H4|].
    split; [exact H7|]. split; [exact H8 | exact H10].
Defined.

(** ** Well-formed sessions stay well formed *)

Lemma wf_sessions_insert (sessions : gmap string Session) (session_id : string)
    (session : Session) :
  wf_sessions sessions -> wf_session session ->
  wf_sessions (<[session_id := session]> sessions).
Proof. intros Hw Hs. by apply map_Forall_insert_2. Qed.

Lemma wf_sessions_lookup (sessions : gmap string Session) (session_id : string)
    (session : Session) :
  wf_sessions sessions -> sessions !! session_id = Some session -> wf_session session.
Proof. intros Hw Hs. exact (Hw _ _ Hs). Qed.

Ltac wf_player_split :=
  unfold wf_player;
  cbn [p_health p_max_health p_credits p_plasma_durability p_level p_inventory
       set_health set_credits set_inventory set_plasma_durability
       set_unlocked_locations s_player set_player append_message];
  refine (conj _ (conj _ (conj _ (conj _ _)))); [try lia; try done .. | ].

Lemma wf_item_with_qty name qty :
  0 < qty <= SCRAP_STACK_SIZE -> wf_item (with_qty name qty).
Proof.
  intros Hq. unfold wf_item. rewrite stack_qty_get. unfold get_qty. simpl. lia.
Qed.

Lemma Forall_wf_filter (P : item -> Prop) `{forall i, Decision (P i)}
    (inventory : list item) :
  Forall wf_item inventory -> Forall wf_item (filter P inventory).
Proof.
  intros Hall. apply Forall_forall. intros i Hi.
  apply list_elem_of_filter in Hi as [_ Hi].
  by eapply Forall_forall in Hall.
Qed.

Lemma sum_stack_qty_nonneg (inventory : list item) :
  Forall wf_item inventory -> 0 <= sum_Z (stack_qty <$> inventory).
Proof.
  induction 1 as [|i inv Hi _ IH]; [done|].
  rewrite fmap_cons. unfold sum_Z in *. cbn [foldr]. unfold wf_item in Hi. lia.
Qed.

Lemma add_stacked_item_wf (inventory : list item) (name : string) (qty : Z) :
  0 <= qty -> Forall wf_item inventory ->
  Forall wf_item (add_stacked_item inventory name qty).
Proof.
  intros Hq Hall. unfold add_stacked_item.
  destruct (fill_partial_stacks inventory name qty) as [inventory' r] eqn:Ef.
  destruct (fill_partial_stacks_shape _ _ _ _ _ Ef) as (_ & Hw & _).
  destruct r as [qty'|]; [|by apply Hw].
  apply Forall_app. split; [by apply Hw|].
  destruct (open_new_stacks_spec name (Z.to_nat qty') qty' ltac:(lia)) as [Hs _].
  eapply Forall_impl; [exact Hs|]. intros i [_ Hi]. exact Hi.
Qed.

Lemma deposit_scrap_wf (session : Session) (args : option (list string)) :
  wf_session session -> wf_session (deposit_scrap session args).1.
Proof.
  intros (Hp & Hc & Hl). unfold deposit_scrap.
  destruct (head (default [] args)) as [scrap_type|]; [|done].
  destruct (bool_decide _); simpl; [|done].
  split; [|done].
  destruct Hp as (Hh & Hcr & Hd & Hlv & Hinv).
  pose proof (sum_stack_qty_nonneg _
                (Forall_wf_filter (fun i => item_name i = scrap_type) _ Hinv)).
  wf_player_split; [|by apply Forall_wf_filter].
  destruct (String.eqb scrap_type "Scrap"); lia.
Qed.

Lemma plasma_blaster_durability_wf (session : Session) :
  wf_session session -> wf_session (plasma_blaster_durability session).
Proof.
  intros (Hp & Hc & Hl). destruct Hp as (Hh & Hcr & Hd & Hlv & Hinv).
  unfold plasma_blaster_durability.
  destruct (holds _ _); [|done].
  destruct (Z.eqb_spec (p_plasma_durability (s_player session)) 1) as [E1|E1];
    cbn [s_player append_message];
    destruct (Z.ltb_spec 0 (p_plasma_durability (s_player session)));
    try done;
    cbn [p_plasma_durability set_plasma_durability];
    destruct (Z.eqb_spec (p_plasma_durability (s_player session) - 1) 0);
    (split; [|done]); wf_player_split; try done;
    by apply Forall_wf_filter.
Qed.

Lemma raiders_wf (player_level : Z) (enemies : list Enemy) :
  0 <= player_level ->
  Forall (raider_of_level player_level) enemies ->
  Forall (fun e => 0 < e_health e) enemies.
Proof.
  intros Hl Hall. eapply Forall_impl; [exact Hall|].
  intros e (Hlev & _ & Hh & _). lia.
Qed.

Lemma attack_session_wf (session : Session) (g : rng) (enemy_id attack : Z) :
  wf_session session -> wf_session (attack_session session g enemy_id attack).1.1.
Proof.
  intros Hw. pose proof Hw as (Hp & Hc & Hl).
  destruct (s_combat session) as [combat|] eqn:Ec;
    [|unfold attack_session; rewrite Ec; exact Hw].
  destruct (list_find (fun e => e_id e = enemy_id) (c_enemies combat))
    as [[target_index target]|] eqn:Ef;
    [|unfold attack_session; rewrite Ec, Ef; exact Hw].
  rewrite (attack_session_normal _ _ _ _ _ _ _ Ec Ef). cbv zeta.
  apply list_find_Some in Ef as (Hlk & Hid & _).
  destruct (Hc _ eq_refl) as (Hne & Hpos & Hnd).
  destruct Hp as (Hh & Hcr & Hd & Hlv & Hinv).
  set (hit := set_enemy_health target (0 `max` (e_health target - attack))).
  set (paid := (e_health hit <=? 0) && (0 <? e_credit_reward target)).
  set (player1 := if paid then _ else _).
  assert (Hp1 : 0 <= p_health player1 <= p_max_health player1 /\
                0 <= p_credits player1 /\
                0 <= p_plasma_durability player1 /\
                0 <= p_level player1 /\
                Forall wf_item (p_inventory player1)).
  { subst player1 paid. destruct (e_health hit <=? 0); simpl; [|done].
    destruct (Z.ltb_spec 0 (e_credit_reward target)); simpl; [|done].
    wf_player_split; done. }
  set (enemies1 := if e_health hit <=? 0 then _ else _).
  assert (He1 : Forall (fun e => 0 < e_health e) enemies1 /\
                NoDup (e_id <$> enemies1)).
  { subst enemies1. destruct (Z.leb_spec (e_health hit) 0) as [Hk|Hk].
    - rewrite delete_insert_same. split; [by apply Forall_delete|].
      rewrite list_fmap_delete.
      pose proof (sublist_delete (e_id <$> c_enemies combat) target_index) as Hsub.
      exact (sublist_NoDup _ _ Hnd Hsub).
    - split; [by apply Forall_insert|].
      rewrite list_fmap_insert.
      rewrite list_insert_id; [done|].
      rewrite list_lookup_fmap, Hlk. reflexivity. }
  destruct He1 as [Hpos1 Hnd1].
  destruct Hp1 as (Hh1 & Hcr1 & Hd1 & Hlv1 & Hinv1).
  destruct enemies1 as [|first others] eqn:Ee.
  - simpl. split; [|split; [done|done]]. wf_player_split; done.
  - destruct (enemy_damage attack) as [edmg|] eqn:Ed;
      cbn [fst s_player s_combat s_unclaimed_loot set_player set_combat];
      (split; [|split; [|done]]).
    + pose proof (enemy_damage_min _ _ Ed). wf_player_split; done.
    + intros c Hcs. inversion Hcs; subst c. split; [done|]. split; done.
    + wf_player_split; done.
    + intros c Hcs. inversion Hcs; subst c. split; [done|]. split; done.
Qed.

Lemma claim_entries_wf (loot : list item) : forall player : Player,
  wf_player player -> Forall wf_loot_entry loot ->
  wf_player (foldl claim_entry player loot).
Proof.
  induction loot as [|entry loot IH]; intros player Hp Hl; [done|].
  inversion Hl as [|? ? Hentry Hrest]; subst. cbn [foldl].
  apply IH; [|done]. clear IH Hrest Hl.
  destruct Hp as (Hh & Hcr & Hd & Hlv & Hinv).
  unfold claim_entry, wf_loot_entry in *.
  destruct (String.eqb_spec (item_name entry) "Credits") as [Ec|Ec].
  - rewrite bool_decide_eq_true_2 in Hentry by (rewrite Ec; set_solver).
    wf_player_split; done.
  - destruct (bool_decide (item_name entry ∈ ["Scrap"; "Iron Scrap"])) eqn:Es.
    + apply bool_decide_eq_true in Es.
      rewrite bool_decide_eq_true_2 in Hentry by set_solver.
      wf_player_split. by apply add_stacked_item_wf.
    + apply bool_decide_eq_false in Es.
      rewrite bool_decide_eq_false_2 in Hentry by set_solver.
      wf_player_split.
      apply Forall_app. split; [done|]. constructor; [|done].
      by apply wf_item_with_qty.
Qed.

Lemma serve_wf
    (execute_command_simple : string -> list string -> Session -> Session * command_result)
    (sessions : gmap string Session) (g : rng) (rq : request) :
  (forall command args session,
     wf_session session -> wf_session (execute_command_simple command args session).1) ->
  wf_sessions sessions ->
  wf_sessions (serve execute_command_simple (sessions, g) rq).1.
Proof.
  intros Hexec Hw. destruct rq; cbn [serve].
  - (* /start *)
    cbn. apply wf_sessions_insert; [done|].
    split; [|split; [done|done]].
    wf_player_split; done.
  - (* /state *)
    unfold get_game_state.
    destruct (sessions !! session_id) as [session|] eqn:Hs; [|done].
    cbn [fst]. apply wf_sessions_insert; [done|].
    destruct (wf_sessions_lookup _ _ _ Hw Hs) as (Hp & Hc & Hl).
    destruct Hp as (Hh & Hcr & Hd & Hlv & Hinv).
    split; [|done]. wf_player_split.
    apply Forall_fmap. eapply Forall_impl; [exact Hinv|].
    intros i Hi. unfold wf_item. simpl. by rewrite stack_qty_normalize.
  - (* /command *)
    unfold run_command.
    destruct (sessions !! cr_session_id req) as [session|] eqn:Hs; [|done].
    pose proof (wf_sessions_lookup _ _ _ Hw Hs) as Hsession.
    destruct (String.eqb _ _).
    + pose proof (deposit_scrap_wf session (cr_args req) Hsession) as Hd.
      destruct (deposit_scrap session (cr_args req)) as [session' r].
      cbn [fst] in *. by apply wf_sessions_insert.
    + pose proof (Hexec (cr_command req) (default [] (cr_args req)) session Hsession)
        as Hd.
      destruct (execute_command_simple _ _ session) as [session' result].
      cbn [fst] in *. by apply wf_sessions_insert.
  - (* /heal *)
    unfold heal_player.
    destruct (sessions !! session_id) as [session|] eqn:Hs; [|done].
    cbn [fst]. apply wf_sessions_insert; [done|].
    destruct (wf_sessions_lookup _ _ _ Hw Hs) as (Hp & Hc & Hl).
    destruct Hp as (Hh & Hcr & Hd & Hlv & Hinv).
    split; [|done]. wf_player_split; done.
  - (* /shop/buy *)
    unfold shop_buy.
    destruct (sessions !! sb_session_id req) as [session|] eqn:Hs; [|done].
    destruct (PRICES !! sb_item_name req) as [cost|]; [|done].
    destruct (Z.ltb_spec (p_credits (s_player session)) cost); [done|].
    cbn [fst]. apply wf_sessions_insert; [done|].
    destruct (wf_sessions_lookup _ _ _ Hw Hs) as (Hp & Hc & Hl).
    destruct Hp as (Hh & Hcr & Hd & Hlv & Hinv).
    split; [|done].
    destruct (String.eqb (sb_item_name req) "Plasma Blaster");
      wf_player_split;
      (apply Forall_app; split; [done|]; constructor; [|done];
       apply wf_item_with_qty; unfold SCRAP_STACK_SIZE; lia).
  - (* /search *)
    unfold search.
    destruct (sessions !! sr_session_id req) as [session|] eqn:Hs; [|done].
    destruct (_ <=? _); [done|].
    destruct (randint 1 2 g) as [rolls g1].
    destruct (search_rolls _ _ _ _) as [[inventory' found_items] g2] eqn:Er.
    pose proof (randint_range 5 25 g2 ltac:(lia)) as Hgain.
    destruct (randint 5 25 g2) as [credits_gain g3]. simpl in Hgain.
    cbn [fst]. apply wf_sessions_insert; [done|].
    destruct (wf_sessions_lookup _ _ _ Hw Hs) as (Hp & Hc & Hl).
    destruct Hp as (Hh & Hcr & Hd & Hlv & Hinv).
    destruct (search_rolls_spec _ _ _ _ _ _ _ Er)
      as (new_items & _ & _ & _ & _ & _ & _ & Hwf & _).
    split; [|done]. wf_player_split. by apply Hwf.
  - (* /adventure *)
    unfold start_adventure.
    destruct (sessions !! session_id) as [session|] eqn:Hs; [|done].
    pose proof (plasma_blaster_durability_wf _ (wf_sessions_lookup _ _ _ Hw Hs))
      as (Hp & _ & _).
    pose proof (randint_range 1 2 g ltac:(lia)) as Hcount.
    destruct (randint 1 2 g) as [enemy_count g1]. simpl in Hcount.
    destruct (spawn_raiders _ _ _ g1) as [enemies g2] eqn:Er.
    pose proof (randint_range 20 60 g2 ltac:(lia)) as Hcr.
    destruct (randint 20 60 g2) as [credits_count g3]. simpl in Hcr.
    pose proof (randint_range 1 4 g3 ltac:(lia)) as Hsc.
    destruct (randint 1 4 g3) as [scrap_count g4]. simpl in Hsc.
    pose proof (randint_range 0 2 g4 ltac:(lia)) as Hir.
    destruct (randint 0 2 g4) as [iron_count g5]. simpl in Hir.
    destruct (spawn_raiders_spec _ _ _ _ _ _ Er) as (Hlen & Hid & Hf).
    cbn [fst]. apply wf_sessions_insert; [done|].
    split; [exact Hp|]. split.
    + intros c Hc. inversion Hc; subst c. cbn [c_enemies]. split; [|split].
      * intros He. simpl in He. rewrite He in Hlen. simpl in Hlen. lia.
      * eapply raiders_wf; [|exact Hf]. by destruct Hp as (_ & _ & _ & Hlv & _).
      * simpl. rewrite Hid. apply NoDup_seqZ.
    + cbn [s_unclaimed_loot set_unclaimed_loot].
      constructor; [|constructor; [|constructor; [|constructor]]];
        unfold wf_loot_entry; simpl; unfold get_qty, with_count; simpl; lia.
  - (* /attack *)
    unfold attack_enemy.
    destruct (sessions !! session_id) as [session|] eqn:Hs; [|done].
    pose proof (attack_session_wf session g enemy_id attack
                  (wf_sessions_lookup _ _ _ Hw Hs)) as Ha.
    destruct (attack_session session g enemy_id attack) as [[session' g'] r].
    cbn [fst] in *. by apply wf_sessions_insert.
  - (* /loot/claim *)
    unfold claim_loot.
    destruct (sessions !! session_id) as [session|] eqn:Hs; [|done].
    cbn [fst]. apply wf_sessions_insert; [done|].
    destruct (wf_sessions_lookup _ _ _ Hw Hs) as (Hp & Hc & Hl).
    split; [|split; [done|done]].
    by apply claim_entries_wf.
  - (* /unlock *)
    unfold unlock_location.
    destruct (sessions !! session_id) as [session|] eqn:Hs; [|done].
    destruct (unlock_costs !! location_id) as [cost|]; [|done].
    destruct (Z.ltb_spec (p_credits (s_player session)) cost); [done|].
    cbn [fst]. apply wf_sessions_insert; [done|].
    destruct (wf_sessions_lookup _ _ _ Hw Hs) as (Hp & Hc & Hl).
    destruct Hp as (Hh & Hcr & Hd & Hlv & Hinv).
    split; [|done]. wf_player_split; done.
Qed.

(** X16: the routes keep the store well formed: if the command interpreter
    keeps a well-formed session well formed, then starting from a
    well-formed store (the empty one in particular) and serving any sequence
    of requests, every stored session has a player with health between 0
    and the maximal health, credits and plasma durability that are not
    negative and only stacks of 1 to 64 units, and a combat, when there is
    one, with a non-empty roster of enemies of positive health and distinct
    ids. *)
Theorem sessions_stay_well_formed
    (execute_command_simple : string -> list string -> Session -> Session * command_result)
    (requests : list request) (sessions : gmap string Session) (g : rng) :
  (forall command args session,
     wf_session session -> wf_session (execute_command_simple command args session).1) ->
  wf_sessions sessions ->
  forall (session_id : string) (session : Session),
    (foldl (serve execute_command_simple) (sessions, g) requests).1 !! session_id
      = Some session ->
    (0 <= p_health (s_player session) <= p_max_health (s_player session)) /\
    0 <= p_credits (s_player session) /\
    0 <= p_plasma_durability (s_player session) /\
    Forall (fun i => 0 < stack_qty i <= SCRAP_STACK_SIZE)
      (p_inventory (s_player session)) /\
    (forall combat, s_combat session = Some combat ->
       c_enemies combat <> [] /\
       Forall (fun e => 0 < e_health e) (c_enemies combat) /\
       NoDup (e_id <$> c_enemies combat)).
Proof.
  intros Hexec Hw.
  assert (Hall : wf_sessions
                   (foldl (serve execute_command_simple) (sessions, g) requests).1).
  { revert sessions g Hw.
    induction requests as [|rq requests IH]; intros sessions g Hw; [done|].
    cbn [foldl].
    pose proof (serve_wf execute_command_simple sessions g rq Hexec Hw) as Hstep.
    destruct (serve execute_command_simple (sessions, g) rq) as [sessions' g'].
    by apply IH. }
  intros session_id session Hs.
  destruct (Hall _ _ Hs) as ((Hh & Hcr & Hd & _ & Hinv) & Hc & _).
  split; [done|]. split; [done|]. split; [done|]. split; [done|]. exact Hc.
Qed.

Lemma sessions_stay_well_formed_witness :
  exists session : Session,
    (foldl (serve execute_command_unavailable) (∅, fixed_rng) tour).1 !! "s1"
      = Some session /\
    0 <= p_health (s_player session) <= p_max_health (s_player session) /\
    0 <= p_credits (s_player session) /\
    Forall (fun i => 0 < stack_qty i <= SCRAP_STACK_SIZE)
      (p_inventory (s_player session)).
Proof.
  destruct ((foldl (serve execute_command_unavailable) (∅, fixed_rng) tour).1 !! "s1")
    as [session|] eqn:Hs; [|vm_compute in Hs; discriminate].
  destruct (sessions_stay_well_formed execute_command_unavailable tour ∅ fixed_rng
              (fun _ _ _ H => H) (map_Forall_empty _) "s1" session Hs)
    as (H1 & H2 & _ & H4 & _).
  exists session. split; [reflexivity|]. split; [exact H1|].
  split; [exact H2 | exact H4].
Defined.
